(** * LINAPS posture monitor: the telemetry interpretation and status engine

    A shallow embedding of [src/app/page.js] (the [PostureMonitor] component).

    JavaScript numbers are IEEE 754 binary64 values; they are modelled by the
    primitive type [float], whose operations are the same binary64 operations
    (round to nearest, ties to even; one NaN; signed zeros).  Comparisons,
    [Math.abs], subtraction, division and multiplication are therefore the
    ones the program runs, including their behaviour on NaN, on the two
    zeros and on the infinities. *)

From Stdlib Require Import Floats ZArith Bool List String Ascii Lia.
From Stdlib Require Import DecimalString.
Import ListNotations.

Set Warnings "-inexact-float".

(** ** JavaScript numbers *)

Module Number.

(** [a < b], [a <= b], [a > b] on numbers: false as soon as an operand is
    NaN. *)
Definition lt (a b : float) : bool := PrimFloat.ltb a b.
Definition le (a b : float) : bool := PrimFloat.leb a b.
Definition gt (a b : float) : bool := PrimFloat.ltb b a.
Definition ge (a b : float) : bool := PrimFloat.leb b a.

Definition isNaN (a : float) : bool := PrimFloat.is_nan a.
Definition isFinite (a : float) : bool := PrimFloat.is_finite a.

(** [Object.is] on numbers: NaN is NaN, and the two zeros differ. *)
Definition same (a b : float) : bool := PrimFloat.Leibniz.eqb a b.

End Number.

Module Math.

Definition abs (x : float) : float := PrimFloat.abs x.

(** [Math.max(...args)], ECMAScript 21.3.2.24: start from -Infinity; a NaN
    argument gives NaN; +0 is larger than -0. *)
Fixpoint max_from (highest : float) (args : list float) : float :=
match args with
| [] => highest
| number :: rest =>
    if Number.isNaN number then nan
    else
      let highest :=
        if Number.same number PrimFloat.zero && Number.same highest neg_zero
        then PrimFloat.zero else highest in
      let highest := if Number.gt number highest then number else highest in
      max_from highest rest
end.

Definition max (args : list float) : float := max_from neg_infinity args.

(** [Math.min(...args)], ECMAScript 21.3.2.25: start from +Infinity; a NaN
    argument gives NaN; -0 is smaller than +0. *)
Fixpoint min_from (lowest : float) (args : list float) : float :=
match args with
| [] => lowest
| number :: rest =>
    if Number.isNaN number then nan
    else
      let lowest :=
        if Number.same number neg_zero && Number.same lowest PrimFloat.zero
        then neg_zero else lowest in
      let lowest := if Number.lt number lowest then number else lowest in
      min_from lowest rest
end.

Definition min (args : list float) : float := min_from infinity args.

End Math.

(** ** The pure helpers of [PostureMonitor] *)

Inductive ColorClass := status_good | status_warning | status_bad.

(** [const clamp = (v, min, max) => Math.max(min, Math.min(max, v))] *)
Definition clamp (v min max : float) : float :=
  Math.max [min; Math.min [max; v]].

(** [getColorClass], page.js lines 19-24. *)
Definition getColorClass (error : float) : ColorClass :=
  let abs := Math.abs error in
  if Number.lt abs 0.5 then status_good
  else if Number.lt abs 1.5 then status_warning
  else status_bad.

(** The body of the effect of lines 83-86:
    [Math.abs(rollError) < 0.2 && Math.abs(pitchError) < 0.2]. *)
Definition atTarget (rollError pitchError : float) : bool :=
  Number.lt (Math.abs rollError) 0.2 && Number.lt (Math.abs pitchError) 0.2.

(** [getDynamicScale], page.js lines 88-95. *)
Definition getDynamicScale (error : float) : float :=
  let abs := Math.abs error in
  if Number.le abs 15 then 15
  else if Number.le abs 30 then 30
  else if Number.le abs 45 then 45
  else if Number.le abs 90 then 90
  else 180.

(** [getBarPercentage], page.js line 100. *)
Definition getBarPercentage (error scale : float) : float :=
  clamp ((Math.abs error / scale) * 100) 0 100.

(** The ordered set of display ranges. *)
Definition scale_tiers : list float := [15; 30; 45; 90; 180]%float.

(** ** The order of binary64 values

    [SFcompare] orders two values that are not NaN.  [rank] sends such a
    value to a triple of integers whose lexicographic order is that order:
    the class (negative infinity, negative, zero, positive, positive
    infinity), then the exponent, then the mantissa. *)

Definition rank (x : spec_float) : Z * Z * Z :=
  match x with
  | S754_nan => (0, 0, 0)%Z
  | S754_zero _ => (0, 0, 0)%Z
  | S754_infinity true => (-2, 0, 0)%Z
  | S754_infinity false => (2, 0, 0)%Z
  | S754_finite true m e => (-1, - e, Z.neg m)%Z
  | S754_finite false m e => (1, e, Z.pos m)%Z
  end.

Definition lex_compare (a b : Z * Z * Z) : comparison :=
  let '(a1, a2, a3) := a in
  let '(b1, b2, b3) := b in
  match (a1 ?= b1)%Z with
  | Eq => match (a2 ?= b2)%Z with
          | Eq => (a3 ?= b3)%Z
          | c => c
          end
  | c => c
  end.

Definition lex_lt (a b : Z * Z * Z) : Prop :=
  let '(a1, a2, a3) := a in
  let '(b1, b2, b3) := b in
  (a1 < b1 \/ (a1 = b1 /\ (a2 < b2 \/ (a2 = b2 /\ a3 < b3))))%Z.

Definition is_nan_sf (x : spec_float) : bool :=
  match x with S754_nan => true | _ => false end.

(** The rank of a number (meaningful when it is not NaN). *)
Definition frank (a : float) : Z * Z * Z := rank (Prim2SF a).

Definition lex_le (a b : Z * Z * Z) : Prop :=
  let '(a1, a2, a3) := a in
  let '(b1, b2, b3) := b in
  (a1 < b1 \/ (a1 = b1 /\ (a2 < b2 \/ (a2 = b2 /\ a3 <= b3))))%Z.

(** ** Number formatting: [Number.prototype.toFixed] *)

Module Format.

Local Open Scope string_scope.

(** The decimal digits of a natural number, "0" for zero. *)
Definition digits (n : N) : string := NilEmpty.string_of_uint (N.to_uint n).

Fixpoint zeros (k : nat) : string :=
match k with
| O => ""
| S k' => "0" ++ zeros k'
end.

(** Steps 11.b and 11.c of [toFixed]: the digits of [n], padded on the left
    to [f + 1] digits, with a point before the last [f] digits. *)
Definition fixed_digits (n : N) (f : nat) : string :=
  let m := digits n in
  match f with
  | O => m
  | _ =>
    let k := String.length m in
    let m := if (k <=? f)%nat then zeros (f + 1 - k) ++ m else m in
    let k := String.length m in
    substring 0 (k - f) m ++ "." ++ substring (k - f) f m
  end.

(** Step 11.a: the integer [n] for which [n / 10^f - x] is closest to zero,
    the larger one when there are two, for [x = m * 2^e]. *)
Definition nearest_scaled (m : positive) (e : Z) (f : nat) : Z :=
  let a := (Z.pos m * 10 ^ Z.of_nat f)%Z in
  match e with
  | Z.neg k => ((2 * a + 2 ^ Z.pos k) / 2 ^ (Z.pos k + 1))%Z
  | _ => (a * 2 ^ e)%Z
  end.

(** [x >= 10^21] for [x = m * 2^e]. *)
Definition at_least_1e21 (m : positive) (e : Z) : bool :=
  match e with
  | Z.neg k => (10 ^ 21 * 2 ^ Z.pos k <=? Z.pos m)%Z
  | _ => (10 ^ 21 <=? Z.pos m * 2 ^ e)%Z
  end.

(** [Number::toString] on an integer value [v >= 10^21] that is the
    binary64 number [m * 2^e]: the digits [s] (there are [k] of them) and
    the exponent [n] with [k] as small as possible such that [s * 10^(n-k)]
    rounds to the number, [s] chosen closest to [v]; written in exponent
    form [d.ddde+N]. *)
Definition roundtrips (m : positive) (e : Z) (v : Z) : bool :=
  match binary_normalize prec emax v 0 false with
  | S754_finite false m' e' => Pos.eqb m m' && Z.eqb e e'
  | _ => false
  end.

Definition candidates (m : positive) (e : Z) (v n k : Z) : list (Z * Z * Z) :=
  flat_map
    (fun n' =>
       let p := (10 ^ (n' - k))%Z in
       flat_map
         (fun s =>
            if ((10 ^ (k - 1) <=? s) && (s <? 10 ^ k) && roundtrips m e (s * p))%Z
            then [(Z.abs (s * p - v), s, n')] else [])
         [(v / p)%Z; (v / p + 1)%Z])
    [n; (n + 1)%Z].

Fixpoint closest (best : Z * Z * Z) (l : list (Z * Z * Z)) : Z * Z * Z :=
match l with
| [] => best
| c :: rest =>
    let '(d, s, _) := c in
    let '(bd, bs, _) := best in
    closest (if (d <? bd)%Z || ((d =? bd)%Z && Z.even s && negb (Z.even bs))
             then c else best) rest
end.

Fixpoint shortest (fuel : nat) (m : positive) (e : Z) (v n k : Z) : Z * Z :=
match fuel with
| O => (v, n)
| S fuel' =>
    match candidates m e v n k with
    | [] => shortest fuel' m e v n (k + 1)%Z
    | c :: rest => let '(_, s, n') := closest c rest in (s, n')
    end
end.

Definition toString_exponent (m : positive) (e : Z) : string :=
  let v := (Z.pos m * 2 ^ e)%Z in
  let n := Z.of_nat (String.length (digits (Z.to_N v))) in
  let '(s, n') := shortest 21 m e v n 1 in
  let d := digits (Z.to_N s) in
  let mantissa :=
    match d with
    | String c "" => String c ""
    | String c rest => String c ("." ++ rest)
    | "" => ""
    end in
  mantissa ++ "e+" ++ digits (Z.to_N (n' - 1)).

(** [x.toFixed(f)] for [0 <= f <= 100] (ECMAScript 21.1.3.3). *)
Definition toFixed (x : float) (f : nat) : string :=
  match Prim2SF x with
  | S754_nan => "NaN"
  | S754_infinity false => "Infinity"
  | S754_infinity true => "-Infinity"
  | S754_zero _ => fixed_digits 0 f
  | S754_finite s m e =>
      (if s then "-" else "") ++
      (if at_least_1e21 m e then toString_exponent m e
       else fixed_digits (Z.to_N (nearest_scaled m e f)) f)
  end.







End Format.

(** ** Component state and inbound frames *)

Module Imu.
Record t := mk { pitch : float; roll : float; yaw : float; heading : float }.
End Imu.

Module Gnss.
Record t := mk { latitude : float; longitude : float; altitude : float }.
End Gnss.

Module Corrections.
Record t := mk { x : float; y : float; z : float }.
End Corrections.

Module Target.
Record t := mk { pitch : float; roll : float; yaw : float }.
End Target.

(** The object [JSON.parse] returns for a frame: each of the four payloads
    is there (an object with numeric fields) or is not. *)
Module Frame.
Record t := mk {
  imu : option Imu.t;
  gnss : option Gnss.t;
  corrections : option Corrections.t;
  target : option Target.t
}.
End Frame.

Inductive ReadyState := CONNECTING | OPEN | CLOSING | CLOSED.

Record WebSocket := { readyState : ReadyState }.

(** The ten [useState] cells of [PostureMonitor], page.js lines 6-15. *)
Record State := mkState {
  pitch : float;
  roll : float;
  yaw : float;
  heading : float;
  gnss : Gnss.t;
  connected : bool;
  target : Target.t;
  corrections : Corrections.t;
  ws : option WebSocket;
  isAtTarget : bool
}.

Definition initialState : State :=
  {| pitch := 0; roll := 0; yaw := 0; heading := 0;
     gnss := Gnss.mk 0 0 0;
     connected := false;
     target := Target.mk 0 0 0;
     corrections := Corrections.mk 0 0 0;
     ws := None;
     isAtTarget := false |}.

(** Lines 80-81: the derived errors, recomputed at every render. *)
Definition rollError (s : State) : float := (roll s - Target.roll (target s))%float.
Definition pitchError (s : State) : float := (pitch s - Target.pitch (target s))%float.

(** ** Effects and the handler monad

    A handler reads the state, writes it through the [set...] functions and
    acts on the outside: it sends on the socket, offers a file for download,
    raises an alert, logs to the console. *)

Inductive Effect :=
| Send (message : string)
| Download (filename content : string)
| Alert (message : string)
| ConsoleError.

Definition M (A : Type) : Type := State -> A * State * list Effect.

Definition ret {A : Type} (a : A) : M A := fun s => (a, s, []).

Definition bind {A B : Type} (c : M A) (k : A -> M B) : M B :=
  fun s =>
    let '(a, s1, out1) := c s in
    let '(b, s2, out2) := k a s1 in
    (b, s2, out1 ++ out2).

Declare Scope handler_scope.
Delimit Scope handler_scope with handler.
Notation "c1 ;; c2" := (bind c1 (fun _ => c2))
  (at level 61, right associativity) : handler_scope.
Notation "x <- c1 ;; c2" := (bind c1 (fun x => c2))
  (at level 61, c1 at next level, right associativity) : handler_scope.

Definition get : M State := fun s => (s, s, []).
Definition emit (e : Effect) : M unit := fun s => (tt, s, [e]).
Definition modify (f : State -> State) : M unit := fun s => (tt, f s, []).

Definition state_of {A : Type} (r : A * State * list Effect) : State := snd (fst r).
Definition effects_of {A : Type} (r : A * State * list Effect) : list Effect := snd r.

Definition setPitch (v : float) : M unit :=
  modify (fun s => mkState v (roll s) (yaw s) (heading s) (gnss s) (connected s)
                           (target s) (corrections s) (ws s) (isAtTarget s)).
Definition setRoll (v : float) : M unit :=
  modify (fun s => mkState (pitch s) v (yaw s) (heading s) (gnss s) (connected s)
                           (target s) (corrections s) (ws s) (isAtTarget s)).
Definition setYaw (v : float) : M unit :=
  modify (fun s => mkState (pitch s) (roll s) v (heading s) (gnss s) (connected s)
                           (target s) (corrections s) (ws s) (isAtTarget s)).
Definition setHeading (v : float) : M unit :=
  modify (fun s => mkState (pitch s) (roll s) (yaw s) v (gnss s) (connected s)
                           (target s) (corrections s) (ws s) (isAtTarget s)).
Definition setGnss (v : Gnss.t) : M unit :=
  modify (fun s => mkState (pitch s) (roll s) (yaw s) (heading s) v (connected s)
                           (target s) (corrections s) (ws s) (isAtTarget s)).
Definition setConnected (v : bool) : M unit :=
  modify (fun s => mkState (pitch s) (roll s) (yaw s) (heading s) (gnss s) v
                           (target s) (corrections s) (ws s) (isAtTarget s)).
Definition setTarget (v : Target.t) : M unit :=
  modify (fun s => mkState (pitch s) (roll s) (yaw s) (heading s) (gnss s) (connected s)
                           v (corrections s) (ws s) (isAtTarget s)).
Definition setCorrections (v : Corrections.t) : M unit :=
  modify (fun s => mkState (pitch s) (roll s) (yaw s) (heading s) (gnss s) (connected s)
                           (target s) v (ws s) (isAtTarget s)).
Definition setWs (v : option WebSocket) : M unit :=
  modify (fun s => mkState (pitch s) (roll s) (yaw s) (heading s) (gnss s) (connected s)
                           (target s) (corrections s) v (isAtTarget s)).
Definition setIsAtTarget (v : bool) : M unit :=
  modify (fun s => mkState (pitch s) (roll s) (yaw s) (heading s) (gnss s) (connected s)
                           (target s) (corrections s) (ws s) v).

(** [if (payload) { ... }] on an optional payload. *)
Definition when_present {A : Type} (payload : option A) (k : A -> M unit) : M unit :=
  match payload with
  | Some p => k p
  | None => ret tt
  end.

(** ** The socket handlers, page.js lines 30-70 *)

Section Handlers.

(** [JSON.parse] on the text of a frame: [None] when it throws. *)
Variable JSON_parse : string -> option Frame.t.

Local Open Scope handler_scope.

Definition onopen : M unit := setConnected true.
Definition onclose : M unit := setConnected false.
Definition onerror : M unit := setConnected false.

Definition onmessage (ev_data : string) : M unit :=
  match JSON_parse ev_data with
  | Some data =>
      when_present (Frame.imu data) (fun imu =>
        setPitch (Imu.pitch imu) ;;
        setRoll (Imu.roll imu) ;;
        setYaw (Imu.yaw imu) ;;
        setHeading (Imu.heading imu)) ;;
      when_present (Frame.gnss data) (fun g =>
        setGnss {| Gnss.latitude := Gnss.latitude g;
                   Gnss.longitude := Gnss.longitude g;
                   Gnss.altitude := Gnss.altitude g |}) ;;
      when_present (Frame.corrections data) (fun c =>
        setCorrections {| Corrections.x := Corrections.x c;
                          Corrections.y := Corrections.y c;
                          Corrections.z := Corrections.z c |}) ;;
      when_present (Frame.target data) (fun t =>
        setTarget {| Target.pitch := Target.pitch t;
                     Target.roll := Target.roll t;
                     Target.yaw := Target.yaw t |})
  | None => emit ConsoleError
  end.

End Handlers.

(** ** The confirmation action, page.js lines 113-153 *)

(** What the host clock returns during [saveToFile]:
    [new Date().toLocaleString('en-IN')] and [Date.now()]. *)
Record Clock := { toLocaleString : string; now : N }.

Definition nl : string := String (ascii_of_nat 10) EmptyString.
Definition dquote : string := String (ascii_of_nat 34) EmptyString.

(** The lines of the template literal of [saveToFile], between its leading
    and its final line break. *)
Definition record_lines (time p r y tp tr ep er lat lon alt status : string)
  : list string :=
  [ "ARTILLERY POINTING LOG";
    "Time: " ++ time;
    "";
    "IMU:";
    "  Pitch: " ++ p ++ "°";
    "  Roll : " ++ r ++ "°";
    "  Yaw  : " ++ y ++ "°";
    "";
    "Target:";
    "  Pitch: " ++ tp ++ "°";
    "  Roll : " ++ tr ++ "°";
    "";
    "Errors:";
    "  Pitch: " ++ ep ++ "°";
    "  Roll : " ++ er ++ "°";
    "";
    "GNSS:";
    "  Lat: " ++ lat;
    "  Lon: " ++ lon;
    "  Alt: " ++ alt ++ " m";
    "";
    "Status: " ++ status ]%string.

Definition record_text (lines : list string) : string :=
  (nl ++ String.concat "" (map (fun l => l ++ nl) lines))%string.

(** The text built by the template literal of [saveToFile] (lines 114-137)
    and the name given to the download (line 141). *)
Definition record_of (clock : Clock) (s : State) : string :=
  record_text (record_lines
    (toLocaleString clock)
    (Format.toFixed (pitch s) 3)
    (Format.toFixed (roll s) 3)
    (Format.toFixed (yaw s) 3)
    (Format.toFixed (Target.pitch (target s)) 3)
    (Format.toFixed (Target.roll (target s)) 3)
    (Format.toFixed (pitchError s) 3)
    (Format.toFixed (rollError s) 3)
    (Format.toFixed (Gnss.latitude (gnss s)) 6)
    (Format.toFixed (Gnss.longitude (gnss s)) 6)
    (Format.toFixed (Gnss.altitude (gnss s)) 2)
    (if isAtTarget s then "ON TARGET" else "ADJUSTING")).

Definition record_filename (clock : Clock) : string :=
  ("Artillery_" ++ Format.digits (now clock) ++ ".txt")%string.

Definition saveToFile (clock : Clock) : M unit :=
  (s <- get ;;
   let txt := record_of clock s in
   emit (Download (record_filename clock) txt))%handler.

(** [JSON.stringify] of an object whose values are strings free of
    characters that need an escape. *)
Definition JSON_stringify (props : list (string * string)) : string :=
  ("{" ++ String.concat ","
     (map (fun kv => dquote ++ fst kv ++ dquote ++ ":" ++ dquote ++ snd kv ++ dquote)
          props) ++ "}")%string.

(** [ws?.readyState === WebSocket.OPEN] *)
Definition socket_is_open (s : State) : bool :=
  match ws s with
  | Some socket => match readyState socket with OPEN => true | _ => false end
  | None => false
  end.

Definition handleSet (clock : Clock) : M unit :=
  (s <- get ;;
   if socket_is_open s then
     emit (Send (JSON_stringify [("command", "SET")]%string)) ;;
     saveToFile clock ;;
     emit (Alert "SET confirmed. Position is now 0° reference.")
   else
     emit (Alert "WebSocket not connected"))%handler.

(** ** Rendering and the session

    After a handler has run, React renders again and runs the effect of
    lines 83-86 when one of its dependencies [rollError], [pitchError]
    changed (compared with [Object.is]). *)

Definition effect_atTarget : M unit :=
  (s <- get ;;
   let at_ := atTarget (rollError s) (pitchError s) in
   setIsAtTarget at_)%handler.

Definition deps_unchanged (before after : State) : bool :=
  Number.same (rollError before) (rollError after) &&
  Number.same (pitchError before) (pitchError after).

Definition dispatch (handler : M unit) : M unit :=
  fun s =>
    let '(_, s1, out1) := handler s in
    if deps_unchanged s s1 then (tt, s1, out1)
    else let '(_, s2, out2) := effect_atTarget s1 in (tt, s2, out1 ++ out2).

(** The mount effects: lines 26-78 ([new WebSocket] returns a connecting
    socket, or throws) and the first run of the effect of lines 83-86. *)
Definition mount (constructed : bool) : M unit :=
  ((if constructed then setWs (Some {| readyState := CONNECTING |})
    else setConnected false) ;;
   effect_atTarget)%handler.

(** The browser moves the socket through its ready states and fires the
    matching event: [open] once the socket is OPEN, [error] and [close]
    once it is CLOSED; the closing handshake (CLOSING) fires no event. *)
Definition browser_readyState (r : ReadyState) : M unit :=
  (s <- get ;;
   match ws s with
   | Some _ => setWs (Some {| readyState := r |})
   | None => ret tt
   end)%handler.

Inductive Event :=
| SocketOpen
| SocketClosing
| SocketError
| SocketClose
| SocketMessage (ev_data : string)
| PressSet (clock : Clock).

Section Session.

Variable JSON_parse : string -> option Frame.t.

Local Open Scope handler_scope.

(** The SET button carries [disabled={!connected}] (page.js line 176): a
    press reaches [handleSet] only while [connected] is true. *)
Definition step (ev : Event) : M unit :=
  dispatch
    match ev with
    | SocketOpen => browser_readyState OPEN ;; onopen
    | SocketClosing => browser_readyState CLOSING
    | SocketError => browser_readyState CLOSED ;; onerror
    | SocketClose => browser_readyState CLOSED ;; onclose
    | SocketMessage ev_data => onmessage JSON_parse ev_data
    | PressSet clock =>
        s <- get ;; if connected s then handleSet clock else ret tt
    end.

Fixpoint run (evs : list Event) (s : State) : State :=
match evs with
| [] => s
| ev :: rest => run rest (state_of (step ev s))
end.

Definition session (constructed : bool) (evs : list Event) : State :=
  run evs (state_of (mount constructed initialState)).

End Session.

(** The messages sent, the files offered and the alerts raised among the
    effects of a handler. *)
Definition sent (out : list Effect) : list string :=
  flat_map (fun e => match e with Send m => [m] | _ => [] end) out.
Definition records (out : list Effect) : list (string * string) :=
  flat_map (fun e => match e with Download f c => [(f, c)] | _ => [] end) out.
Definition alerts (out : list Effect) : list string :=
  flat_map (fun e => match e with Alert m => [m] | _ => [] end) out.



(** ** Derived display values, page.js lines 97-111 and the two gauges *)



(** Lines 105-106. *)
Definition rollDirection (rollError : float) : string :=
  if Number.gt rollError 0 then "RIGHT"
  else if Number.lt rollError 0 then "LEFT" else "CENTER".

Definition pitchDirection (pitchError : float) : string :=
  if Number.gt pitchError 0 then "UP"
  else if Number.lt pitchError 0 then "DOWN" else "CENTER".

(** [getScaleMarkers], lines 108-111. *)
Definition getScaleMarkers (scale : float) : list float :=
  [ (- scale); ((- scale) * 2) / 3; (- scale) / 3; 0;
    scale / 3; (scale * 2) / 3; scale ]%float.

(** Where a marker is drawn, in percent of the gauge: lines 241 (pitch,
    from the top) and 289 (roll, from the left). *)
Definition pitchMarkerTop (deg scale : float) : float := (50 + (deg / scale) * 50)%float.
Definition rollMarkerLeft (deg scale : float) : float := (50 - (deg / scale) * 50)%float.

(** The effects of a whole session, in order. *)
Section Trace.

Variable JSON_parse : string -> option Frame.t.

Fixpoint trace (evs : list Event) (s : State) : list Effect :=
match evs with
| [] => []
| ev :: rest =>
    effects_of (step JSON_parse ev s) ++ trace rest (state_of (step JSON_parse ev s))
end.

End Trace.

(** Whether a rounding step lost a non-zero part. *)
Definition inexact (mrs : shr_record) : bool := shr_r mrs || shr_s mrs.

(** ** Session invariants and sample inputs *)

(** After every step the flag is the decision on the current errors. *)
Definition flag_in_sync (s : State) : Prop :=
  isAtTarget s = atTarget (rollError s) (pitchError s).

(** While the socket is OPEN the [connected] cell is true. *)
Definition open_implies_connected (s : State) : Prop :=
  socket_is_open s = true -> connected s = true.

(** Sample inputs for the examples. *)

Definition sample_parse (ev_data : string) : option Frame.t :=
  if String.eqb ev_data "{}" then Some (Frame.mk None None None None) else None.

Definition sample_gnss : Gnss.t := Gnss.mk 28.613939 77.209021 216.5.

Definition gnss_only_parse (ev_data : string) : option Frame.t :=
  if String.eqb ev_data "gnss only" then Some (Frame.mk None (Some sample_gnss) None None)
  else None.

Definition sample_state : State :=
  mkState 1 0 5 90 (Gnss.mk 28.613939 77.209021 216.5) true (Target.mk 0 0 0)
          (Corrections.mk 0 0 0) (Some {| readyState := OPEN |}) false.

Definition sample_clock : Clock :=
  {| toLocaleString := "1/11/2026, 10:00:00 am"; now := 1793456789000 |}.

(** The socket object exists (the constructor did not throw). *)
Definition ws_present (s : State) : Prop := ws s <> None.

(** The text [JSON.stringify({ command: 'SET' })] evaluates to. *)
Definition SET_command : string :=
  ("{" ++ dquote ++ "command" ++ dquote ++ ":" ++ dquote ++ "SET" ++ dquote ++ "}")%string.

(** [m * 2^e], or a value strictly between it and [(m + 1) * 2^e] when
    [exact] is false, is at most the binary64 number [mc * 2^ec]. *)
Definition below (m e : Z) (exact : bool) (mc : positive) (ec : Z) : Prop :=
  (e <= ec /\
   if exact then m <= Z.pos mc * 2 ^ (ec - e) else m < Z.pos mc * 2 ^ (ec - e))%Z.

Definition is_exact (l : location) : bool :=
  match l with loc_Exact => true | _ => false end.

(** A rounded result that is [+0] or a positive number at most
    [mc * 2^ec]. *)
Definition at_most (r : spec_float) (mc : positive) (ec : Z) : Prop :=
  r = S754_zero false \/
  exists m e, r = S754_finite false m e /\
              (e < ec \/ (e = ec /\ Z.pos m <= Z.pos mc))%Z.

(** A result that is not NaN and carries the sign [+]. *)
Definition nonneg_sf (r : spec_float) : Prop :=
  r = S754_zero false \/ r = S754_infinity false \/
  exists m e, r = S754_finite false m e.

(** The number of presses of the SET button among the events. *)
Definition presses (evs : list Event) : nat :=
  List.length (filter (fun ev => match ev with PressSet _ => true | _ => false end) evs).

(** Each number is below the next one. *)
Fixpoint increasing (l : list float) : bool :=
match l with
| a :: (b :: _) as rest => Number.lt a b && increasing rest
| _ => true
end.

(** * The Present Position screen, [src/app/PresentPos/page.js] *)

Module PresentPosition.

Record Position := mkPosition {
  easting : float;
  northing : float;
  height : float;
  zone : float;
  fixType : string;
  gpsOk : bool;
  quality : string
}.

Record ImuData := mkImuData {
  pitch : float;
  roll : float;
  yaw : float;
  heading : float
}.

(** The four [useState] cells, lines 6-22. *)
Record State := mkState {
  position : Position;
  imuData : ImuData;
  lastUpdate : string;
  connected : bool
}.

Definition initialState : State :=
  {| position := mkPosition 0 0 0 30 "Waiting..." false "unknown";
     imuData := mkImuData 0 0 0 0;
     lastUpdate := "--:--:--";
     connected := false |}.

(** A decoded frame.  The fields of the [imu] payload are read through
    [|| 0], so each of them may be missing. *)
Record ImuPayload := mkImuPayload {
  imu_pitch : option float;
  imu_roll : option float;
  imu_yaw : option float;
  imu_heading : option float
}.

Record GnssPayload := mkGnssPayload {
  latitude : float;
  longitude : float;
  altitude : float
}.

Record Frame := mkFrame {
  imu : option ImuPayload;
  gnss : option GnssPayload
}.

(** [ToBoolean] of a number: false for [+0], [-0] and NaN. *)
Definition truthy (x : float) : bool :=
  negb (Number.isNaN x || PrimFloat.eqb x 0).

(** [field || 0], where a missing field reads [undefined]. *)
Definition or_zero (field : option float) : float :=
  match field with
  | Some x => if truthy x then x else 0%float
  | None => 0%float
  end.

Definition Math_PI : float := 3.141592653589793%float.

Inductive Log :=
| ConsoleLog (message : string)
| ConsoleErrorParse.

Inductive Event :=
| Open
| Close
| Message (ev_data : string) (localeTime : string).

(** [getColor], lines 92-97. *)
Definition getColor (q : string) : string :=
  if String.eqb q "good" then "text-green"
  else if String.eqb q "warning" then "text-yellow"
  else "text-red".

Section Handlers.

(** [JSON.parse] ([None] when it throws), [Math.cos] and [Math.round] of
    the host. *)
Variable JSON_parse : string -> option Frame.
Variable Math_cos : float -> float.
Variable Math_round : float -> float.

Definition onopen (s : State) : State * list Log :=
  (mkState (position s) (imuData s) (lastUpdate s) true,
   [ConsoleLog "✅ Present Position connected"]).

Definition onclose (s : State) : State * list Log :=
  (mkState (position s) (imuData s) (lastUpdate s) false,
   [ConsoleLog "❌ Present Position disconnected"]).

(** Lines 42-84; [localeTime] is what [new Date().toLocaleTimeString()]
    returns while the frame is handled. *)
Definition onmessage (ev_data localeTime : string) (s : State) : State * list Log :=
  match JSON_parse ev_data with
  | Some data =>
      let s1 :=
        match imu data with
        | Some i =>
            mkState (position s)
              {| pitch := or_zero (imu_pitch i);
                 roll := or_zero (imu_roll i);
                 yaw := or_zero (imu_yaw i);
                 heading := or_zero (imu_heading i) |}
              (lastUpdate s) (connected s)
        | None => s
        end in
      let s2 :=
        match gnss data with
        | Some g =>
            let lat := latitude g in
            let lon := longitude g in
            let alt := altitude g in
            let easting :=
              Math_round ((lon + 180) * 111320 * Math_cos (lat * Math_PI / 180))%float in
            let northing := Math_round ((lat + 90) * 111320)%float in
            mkState
              {| easting := easting;
                 northing := northing;
                 height := Math_round alt;
                 zone := 30;
                 fixType := "INS+GPS";
                 gpsOk := true;
                 quality := "good" |}
              (imuData s1) localeTime (connected s1)
        | None => s1
        end in
      (s2, [])
  | None => (s, [ConsoleErrorParse])
  end.

Definition step (ev : Event) (s : State) : State * list Log :=
  match ev with
  | Open => onopen s
  | Close => onclose s
  | Message ev_data localeTime => onmessage ev_data localeTime s
  end.

Fixpoint run (evs : list Event) (s : State) : State :=
match evs with
| [] => s
| ev :: rest => run rest (fst (step ev s))
end.

(** Whether an event is a frame that decodes and carries a position. *)
Definition carries_gnss (ev : Event) : bool :=
  match ev with
  | Message ev_data _ =>
      match JSON_parse ev_data with
      | Some data => match gnss data with Some _ => true | None => false end
      | None => false
      end
  | _ => false
  end.

End Handlers.

(** A stored orientation value: a number, and not [-0]. *)
Definition clean (x : float) : Prop := Number.isNaN x = false /\ x <> (-0)%float.

Definition clean_imu (d : ImuData) : Prop :=
  clean (pitch d) /\ clean (roll d) /\ clean (yaw d) /\ clean (heading d).

(** The fix is either still the initial one or the one every position
    frame writes. *)
Definition fix_invariant (s : State) : Prop :=
  (gpsOk (position s) = true /\ fixType (position s) = "INS+GPS"%string /\
   quality (position s) = "good"%string /\ zone (position s) = 30%float) \/
  (position s = position initialState /\ lastUpdate s = "--:--:--"%string).

End PresentPosition.

(** * Properties *)

(** ** The order of binary64 values *)

Lemma SFcompare_rank (x y : spec_float) :
  is_nan_sf x = false -> is_nan_sf y = false ->
  SFcompare x y = Some (lex_compare (rank x) (rank y)).
Proof.
  destruct x as [sx|sx| |sx mx ex], y as [sy|sy| |sy my ey];
    simpl; try discriminate; intros _ _;
    try (destruct sx); try (destruct sy); simpl; try reflexivity.
  - rewrite Z.compare_opp, (Z.compare_antisym ex ey).
    change (PosDef.Pos.compare_cont Eq mx my) with (mx ?= my)%positive.
    destruct (ex ?= ey)%Z; reflexivity.
Qed.

Lemma lex_compare_Lt (a b : Z * Z * Z) : lex_compare a b = Lt <-> lex_lt a b.
Proof.
  destruct a as [[a1 a2] a3], b as [[b1 b2] b3]; simpl.
  destruct (Z.compare_spec a1 b1); [destruct (Z.compare_spec a2 b2);
    [destruct (Z.compare_spec a3 b3)| |] | |];
    split; intros H'; try discriminate; try reflexivity; lia.
Qed.

Lemma lex_compare_Eq (a b : Z * Z * Z) : lex_compare a b = Eq <-> a = b.
Proof.
  destruct a as [[a1 a2] a3], b as [[b1 b2] b3]; simpl.
  destruct (Z.compare_spec a1 b1); [destruct (Z.compare_spec a2 b2);
    [destruct (Z.compare_spec a3 b3)| |] | |];
    split; intros H'; try discriminate; try reflexivity;
    try (injection H'; intros; lia); subst; reflexivity.
Qed.

Lemma lex_compare_Gt (a b : Z * Z * Z) : lex_compare a b = Gt <-> lex_lt b a.
Proof.
  destruct a as [[a1 a2] a3], b as [[b1 b2] b3]; simpl.
  destruct (Z.compare_spec a1 b1); [destruct (Z.compare_spec a2 b2);
    [destruct (Z.compare_spec a3 b3)| |] | |];
    split; intros H'; try discriminate; try reflexivity; lia.
Qed.

Lemma isNaN_spec (a : float) : Number.isNaN a = is_nan_sf (Prim2SF a).
Proof.
  unfold Number.isNaN, is_nan. rewrite FloatAxioms.eqb_spec. unfold SFeqb.
  destruct (is_nan_sf (Prim2SF a)) eqn:E.
  - destruct (Prim2SF a); try discriminate. reflexivity.
  - rewrite (SFcompare_rank _ _ E E).
    replace (lex_compare _ _) with Eq; [reflexivity|].
    symmetry. apply lex_compare_Eq. reflexivity.
Qed.

Lemma lt_spec (a b : float) :
  Number.lt a b = true <->
  Number.isNaN a = false /\ Number.isNaN b = false /\ lex_lt (frank a) (frank b).
Proof.
  unfold Number.lt, frank. rewrite FloatAxioms.ltb_spec, !isNaN_spec. unfold SFltb.
  destruct (is_nan_sf (Prim2SF a)) eqn:Ea.
  { destruct (Prim2SF a); try discriminate. simpl. split; [discriminate|].
    intros [H' _]; discriminate. }
  destruct (is_nan_sf (Prim2SF b)) eqn:Eb.
  { destruct (Prim2SF b); try discriminate.
    destruct (Prim2SF a); simpl; (split; [discriminate|]);
      intros [_ [H' _]]; discriminate. }
  rewrite (SFcompare_rank _ _ Ea Eb).
  rewrite <- lex_compare_Lt.
  destruct (lex_compare _ _); split; try discriminate; auto;
    intros [_ [_ H']]; discriminate.
Qed.

Lemma lex_le_iff (a b : Z * Z * Z) : lex_le a b <-> lex_lt a b \/ a = b.
Proof.
  destruct a as [[a1 a2] a3], b as [[b1 b2] b3]; simpl. split.
  - intros H'. destruct (Z.eq_dec a3 b3) as [E|E];
      [destruct (Z.eq_dec a2 b2) as [E2|E2];
        [destruct (Z.eq_dec a1 b1) as [E1|E1]|]|];
      try (left; lia). right. subst. reflexivity.
  - intros [H'|H']; [lia|]. injection H'; intros; lia.
Qed.

Lemma le_spec (a b : float) :
  Number.le a b = true <->
  Number.isNaN a = false /\ Number.isNaN b = false /\ lex_le (frank a) (frank b).
Proof.
  unfold Number.le, frank. rewrite FloatAxioms.leb_spec, !isNaN_spec. unfold SFleb.
  destruct (is_nan_sf (Prim2SF a)) eqn:Ea.
  { destruct (Prim2SF a); try discriminate. simpl. split; [discriminate|].
    intros [H' _]; discriminate. }
  destruct (is_nan_sf (Prim2SF b)) eqn:Eb.
  { destruct (Prim2SF b); try discriminate.
    destruct (Prim2SF a); simpl; (split; [discriminate|]);
      intros [_ [H' _]]; discriminate. }
  rewrite (SFcompare_rank _ _ Ea Eb).
  rewrite lex_le_iff, <- lex_compare_Lt, <- lex_compare_Eq.
  destruct (lex_compare _ _); split; try discriminate; auto;
    intros [_ [_ [H'|H']]]; discriminate.
Qed.

Lemma lt_false_spec (a b : float) :
  Number.isNaN a = false -> Number.isNaN b = false ->
  (Number.lt a b = false <-> lex_le (frank b) (frank a)).
Proof.
  intros Ha Hb. rewrite <- not_true_iff_false, lt_spec.
  destruct (frank a) as [[a1 a2] a3], (frank b) as [[b1 b2] b3]; simpl.
  split; [intros H'|intros H' [_ [_ H2]]; lia].
  assert (H2 : ~ (a1 < b1 \/ a1 = b1 /\ (a2 < b2 \/ a2 = b2 /\ a3 < b3))%Z)
    by (intros H2; apply H'; auto).
  lia.
Qed.

Lemma le_false_spec (a b : float) :
  Number.isNaN a = false -> Number.isNaN b = false ->
  (Number.le a b = false <-> lex_lt (frank b) (frank a)).
Proof.
  intros Ha Hb. rewrite <- not_true_iff_false, le_spec.
  destruct (frank a) as [[a1 a2] a3], (frank b) as [[b1 b2] b3]; simpl.
  split; [intros H'|intros H' [_ [_ H2]]; lia].
  assert (H2 : ~ (a1 < b1 \/ a1 = b1 /\ (a2 < b2 \/ a2 = b2 /\ a3 <= b3))%Z)
    by (intros H2; apply H'; auto).
  lia.
Qed.

Lemma lt_notNaN (a b : float) :
  Number.lt a b = true -> Number.isNaN a = false /\ Number.isNaN b = false.
Proof. rewrite lt_spec. tauto. Qed.

Lemma le_notNaN (a b : float) :
  Number.le a b = true -> Number.isNaN a = false /\ Number.isNaN b = false.
Proof. rewrite le_spec. tauto. Qed.

Lemma lt_le_false (a b : float) : Number.lt a b = true -> Number.le b a = false.
Proof.
  intros H. destruct (lt_notNaN _ _ H) as [Ha Hb].
  apply (le_false_spec b a Hb Ha). apply lt_spec in H. tauto.
Qed.

Lemma le_lt_false (a b : float) : Number.le a b = true -> Number.lt b a = false.
Proof.
  intros H. destruct (le_notNaN _ _ H) as [Ha Hb].
  apply (lt_false_spec b a Hb Ha). apply le_spec in H. tauto.
Qed.

Lemma nlt_le (a b : float) :
  Number.isNaN a = false -> Number.isNaN b = false ->
  Number.lt a b = false -> Number.le b a = true.
Proof.
  intros Ha Hb H. apply le_spec. repeat split; trivial.
  apply (lt_false_spec a b Ha Hb). exact H.
Qed.

Lemma nle_lt (a b : float) :
  Number.isNaN a = false -> Number.isNaN b = false ->
  Number.le a b = false -> Number.lt b a = true.
Proof.
  intros Ha Hb H. apply lt_spec. repeat split; trivial.
  apply (le_false_spec a b Ha Hb). exact H.
Qed.

Lemma le_trans (a b c : float) :
  Number.le a b = true -> Number.le b c = true -> Number.le a c = true.
Proof.
  rewrite !le_spec. intros [Ha [Hb H1]] [_ [Hc H2]]. repeat split; trivial.
  destruct (frank a) as [[a1 a2] a3], (frank b) as [[b1 b2] b3],
    (frank c) as [[c1 c2] c3]; simpl in *; lia.
Qed.

Lemma lt_le_trans (a b c : float) :
  Number.lt a b = true -> Number.le b c = true -> Number.lt a c = true.
Proof.
  rewrite !lt_spec, le_spec. intros [Ha [Hb H1]] [_ [Hc H2]]. repeat split; trivial.
  destruct (frank a) as [[a1 a2] a3], (frank b) as [[b1 b2] b3],
    (frank c) as [[c1 c2] c3]; simpl in *; lia.
Qed.

Lemma le_lt_trans (a b c : float) :
  Number.le a b = true -> Number.lt b c = true -> Number.lt a c = true.
Proof.
  rewrite !lt_spec, le_spec. intros [Ha [Hb H1]] [_ [Hc H2]]. repeat split; trivial.
  destruct (frank a) as [[a1 a2] a3], (frank b) as [[b1 b2] b3],
    (frank c) as [[c1 c2] c3]; simpl in *; lia.
Qed.

Lemma lt_le (a b : float) : Number.lt a b = true -> Number.le a b = true.
Proof.
  rewrite lt_spec, le_spec. intros [Ha [Hb H1]]. repeat split; trivial.
  destruct (frank a) as [[a1 a2] a3], (frank b) as [[b1 b2] b3]; simpl in *; lia.
Qed.

Lemma isNaN_abs (a : float) : Number.isNaN (Math.abs a) = Number.isNaN a.
Proof.
  rewrite !isNaN_spec. unfold Math.abs. rewrite abs_spec.
  destruct (Prim2SF a); reflexivity.
Qed.

Lemma isNaN_true (a : float) : Number.isNaN a = true -> a = nan.
Proof.
  rewrite isNaN_spec. intros H. apply Prim2SF_inj.
  destruct (Prim2SF a); try discriminate. reflexivity.
Qed.

(** ** C1: severity classification *)

(** C1 (as amended).  For every error value [e], [getColorClass e] is
    [status_good] iff |e| < 0.5, [status_warning] iff 0.5 <= |e| < 1.5, and
    [status_bad] iff |e| >= 1.5 or [e] is NaN (NaN fails both comparisons and
    falls through to the last branch).  The boundary magnitudes 0.5 and 1.5
    resolve to [status_warning] and [status_bad]. *)
Theorem getColorClass_tiers (e : float) :
  (getColorClass e = status_good <-> Number.lt (Math.abs e) 0.5 = true) /\
  (getColorClass e = status_warning <->
     Number.le 0.5 (Math.abs e) = true /\ Number.lt (Math.abs e) 1.5 = true) /\
  (getColorClass e = status_bad <->
     Number.le 1.5 (Math.abs e) = true \/ Number.isNaN e = true) /\
  (Math.abs e = 0.5%float -> getColorClass e = status_warning) /\
  (Math.abs e = 1.5%float -> getColorClass e = status_bad).
Proof.
  assert (H05 : Number.isNaN 0.5 = false) by reflexivity.
  assert (H15 : Number.isNaN 1.5 = false) by reflexivity.
  assert (Hc : Number.lt 0.5 1.5 = true) by reflexivity.
  unfold getColorClass.
  destruct (Number.lt (Math.abs e) 0.5) eqn:E1;
    [|destruct (Number.lt (Math.abs e) 1.5) eqn:E2].
  - destruct (lt_notNaN _ _ E1) as [Ha _]. rewrite isNaN_abs in Ha.
    pose proof (lt_le_false _ _ E1) as L1.
    pose proof (lt_le_false _ _ (lt_le_trans _ _ _ E1 (lt_le _ _ Hc))) as L2.
    repeat split; intros; try discriminate; try congruence;
      try (match goal with
           | H : Math.abs e = _ |- _ => rewrite H in *; vm_compute in *; congruence
           end);
      intuition congruence.
  - destruct (lt_notNaN _ _ E2) as [Ha _].
    pose proof (nlt_le _ _ Ha H05 E1) as L1.
    pose proof (lt_le_false _ _ E2) as L2. rewrite isNaN_abs in Ha.
    repeat split; intros; try discriminate; try congruence;
      try (match goal with
           | H : Math.abs e = _ |- _ => rewrite H in *; vm_compute in *; congruence
           end);
      intuition congruence.
  - assert (L : Number.le 1.5 (Math.abs e) = true \/ Number.isNaN e = true).
    { destruct (Number.isNaN e) eqn:En; [right; reflexivity|left].
      rewrite <- isNaN_abs in En. apply nlt_le; trivial. }
    repeat split; intros; try discriminate; try congruence;
      try (match goal with
           | H : Math.abs e = _ |- _ => rewrite H in *; vm_compute in *; congruence
           end);
      intuition congruence.
Qed.

(** C1, the claim as written fails: the error [Infinity - Infinity] (NaN) is
    classified [status_bad] although |e| >= 1.5 does not hold. *)
Lemma getColorClass_nan_not_ge :
  let e := (infinity - infinity)%float in
  getColorClass e = status_bad /\ Number.ge (Math.abs e) 1.5 = false.
Proof. split; reflexivity. Qed.

(** ** C2: adaptive scale selection *)

Lemma getDynamicScale_in_tiers (e : float) : In (getDynamicScale e) scale_tiers.
Proof.
  unfold getDynamicScale, scale_tiers.
  repeat match goal with
         | |- context [if ?c then _ else _] => destruct c
         end; simpl; auto 6.
Qed.

(** C2.  For every error [e] with magnitude [m = |e|]: when [m <= 90],
    [getDynamicScale e] is a member of {15, 30, 45, 90, 180} that is [>= m],
    it is below every member that is [>= m], and it is the only member with
    these two properties; when [m > 90] it is 180.  Examples: 15 gives 15,
    15.0001 gives 30, 200 gives 180. *)
Theorem getDynamicScale_smallest_tier (e : float) :
  let m := Math.abs e in
  (Number.le m 90 = true ->
     In (getDynamicScale e) scale_tiers /\
     Number.ge (getDynamicScale e) m = true /\
     (forall t, In t scale_tiers -> Number.ge t m = true ->
                Number.le (getDynamicScale e) t = true) /\
     (forall t, In t scale_tiers -> Number.ge t m = true ->
        (forall t', In t' scale_tiers -> Number.ge t' m = true ->
                    Number.le t t' = true) ->
        t = getDynamicScale e)) /\
  (Number.gt m 90 = true -> getDynamicScale e = 180%float) /\
  getDynamicScale 15 = 15%float /\
  getDynamicScale 15.0001 = 30%float /\
  getDynamicScale 200 = 180%float.
Proof.
  intros m.
  assert (Hleast : Number.le m 90 = true ->
     Number.ge (getDynamicScale e) m = true /\
     (forall t, In t scale_tiers -> Number.ge t m = true ->
                Number.le (getDynamicScale e) t = true)).
  { unfold getDynamicScale, Number.ge. fold m. intros H90.
    destruct (Number.le m 15) eqn:E15;
      [|destruct (Number.le m 30) eqn:E30;
        [|destruct (Number.le m 45) eqn:E45;
          [|destruct (Number.le m 90) eqn:E90; [|discriminate]]]];
      (split; [assumption|]);
      intros t Ht Hm; simpl in Ht; unfold Number.le in *;
      repeat (destruct Ht as [<-|Ht]; [try reflexivity; congruence|]);
      destruct Ht. }
  split; [|split; [|repeat split; reflexivity]].
  - intros H90. destruct (Hleast H90) as [Hge Hmin].
    split; [apply getDynamicScale_in_tiers|]. split; [exact Hge|].
    split; [exact Hmin|].
    intros t Ht Hm Hall.
    pose proof (Hmin t Ht Hm) as H1.
    pose proof (Hall _ (getDynamicScale_in_tiers e) Hge) as H2.
    pose proof (getDynamicScale_in_tiers e) as Hs.
    revert H1 H2. generalize (getDynamicScale e) Hs. intros s Hs'.
    simpl in Ht, Hs'.
    repeat (destruct Ht as [<-|Ht];
            [repeat (destruct Hs' as [<-|Hs'];
                     [try reflexivity; vm_compute; intros; congruence|]);
             destruct Hs'|]).
    destruct Ht.
  - unfold Number.gt. intros H. pose proof (lt_le_false _ _ H) as H90.
    assert (Hn : forall c, Number.le c 90 = true -> Number.le m c = false).
    { intros c Hc. destruct (Number.le m c) eqn:E; [|reflexivity].
      rewrite (le_trans _ _ _ E Hc) in H90. discriminate. }
    unfold getDynamicScale. fold m.
    rewrite (Hn 15%float), (Hn 30%float), (Hn 45%float), H90 by reflexivity. reflexivity.
Qed.

(** ** The socket handlers and the confirmation action *)

Lemma same_refl (a : float) : Number.same a a = true.
Proof. apply Leibniz.eqb_spec. reflexivity. Qed.

Lemma same_eq (a b : float) : Number.same a b = true -> a = b.
Proof. apply Leibniz.eqb_spec. Qed.

Lemma deps_unchanged_refl (s : State) : deps_unchanged s s = true.
Proof. unfold deps_unchanged. rewrite !same_refl. reflexivity. Qed.

Lemma dispatch_state (h : M unit) (s : State) :
  state_of (dispatch h s) =
  if deps_unchanged s (state_of (h s)) then state_of (h s)
  else state_of (effect_atTarget (state_of (h s))).
Proof.
  unfold dispatch, state_of. destruct (h s) as [[u s1] out]. cbn [fst snd].
  destruct (deps_unchanged s s1); [reflexivity|].
  destruct (effect_atTarget s1) as [[u2 s2] out2]. reflexivity.
Qed.

Lemma dispatch_unchanged (h : M unit) (s : State) :
  state_of (h s) = s -> state_of (dispatch h s) = s.
Proof.
  intros H. rewrite dispatch_state, H, deps_unchanged_refl. reflexivity.
Qed.

Lemma handleSet_state (clock : Clock) (s : State) :
  state_of (handleSet clock s) = s.
Proof.
  unfold handleSet, state_of, bind, get. destruct (socket_is_open s); reflexivity.
Qed.

Lemma press_state (clock : Clock) (s : State) :
  state_of (bind get (fun s' => if connected s' then handleSet clock else ret tt) s) = s.
Proof.
  pose proof (handleSet_state clock s) as H. unfold state_of in *.
  unfold bind, get. destruct (connected s); [|reflexivity].
  destruct (handleSet clock s) as [[u s1] out]. exact H.
Qed.

Lemma handleSet_effects (clock : Clock) (s : State) :
  effects_of (handleSet clock s) =
  if socket_is_open s then
    Send (JSON_stringify [("command", "SET")]%string)
    :: effects_of (saveToFile clock s)
    ++ [Alert "SET confirmed. Position is now 0° reference."]
  else [Alert "WebSocket not connected"].
Proof.
  unfold handleSet, effects_of, bind, get. destruct (socket_is_open s); reflexivity.
Qed.

Lemma saveToFile_effects (clock : Clock) (s : State) :
  exists txt,
    effects_of (saveToFile clock s) =
    [Download ("Artillery_" ++ Format.digits (now clock) ++ ".txt") txt].
Proof. eexists. reflexivity. Qed.

Section SessionFacts.

Variable JSON_parse : string -> option Frame.t.

(** The state a decoded frame leaves behind, entity by entity. *)
Lemma onmessage_decoded (ev_data : string) (data : Frame.t) (s : State) :
  JSON_parse ev_data = Some data ->
  state_of (onmessage JSON_parse ev_data s) =
  {| pitch := match Frame.imu data with Some i => Imu.pitch i | None => pitch s end;
     roll := match Frame.imu data with Some i => Imu.roll i | None => roll s end;
     yaw := match Frame.imu data with Some i => Imu.yaw i | None => yaw s end;
     heading := match Frame.imu data with Some i => Imu.heading i | None => heading s end;
     gnss := match Frame.gnss data with Some g => g | None => gnss s end;
     connected := connected s;
     target := match Frame.target data with Some t => t | None => target s end;
     corrections :=
       match Frame.corrections data with Some c => c | None => corrections s end;
     ws := ws s;
     isAtTarget := isAtTarget s |}.
Proof.
  intros H. unfold onmessage. rewrite H.
  destruct data as [[i|] [g|] [c|] [t|]], s; simpl;
    try destruct g; try destruct c; try destruct t; reflexivity.
Qed.

Lemma onmessage_malformed (ev_data : string) (s : State) :
  JSON_parse ev_data = None ->
  onmessage JSON_parse ev_data s = (tt, s, [ConsoleError]).
Proof. intros H. unfold onmessage. rewrite H. reflexivity. Qed.

(** No handler writes the [isAtTarget] cell: only the effect does. *)
Lemma handlers_keep_flag (ev : Event) (s : State) :
  let h :=
    match ev with
    | SocketOpen => bind (browser_readyState OPEN) (fun _ => onopen)
    | SocketClosing => browser_readyState CLOSING
    | SocketError => bind (browser_readyState CLOSED) (fun _ => onerror)
    | SocketClose => bind (browser_readyState CLOSED) (fun _ => onclose)
    | SocketMessage ev_data => onmessage JSON_parse ev_data
    | PressSet clock =>
        bind get (fun s => if connected s then handleSet clock else ret tt)
    end in
  isAtTarget (state_of (h s)) = isAtTarget s.
Proof.
  destruct ev; simpl.
  - unfold bind, browser_readyState, get. destruct s as [? ? ? ? ? ? ? ? [w|] ?]; reflexivity.
  - unfold bind, browser_readyState, get. destruct s as [? ? ? ? ? ? ? ? [w|] ?]; reflexivity.
  - unfold bind, browser_readyState, get. destruct s as [? ? ? ? ? ? ? ? [w|] ?]; reflexivity.
  - unfold bind, browser_readyState, get. destruct s as [? ? ? ? ? ? ? ? [w|] ?]; reflexivity.
  - destruct (JSON_parse ev_data) as [data|] eqn:E.
    + rewrite (onmessage_decoded _ _ _ E). reflexivity.
    + rewrite (onmessage_malformed _ _ E). reflexivity.
  - unfold bind, get. destruct (connected s) eqn:E.
    + simpl. pose proof (handleSet_state clock s) as H.
      unfold state_of in *. destruct (handleSet clock s) as [[u s1] out].
      simpl in *. subst. reflexivity.
    + reflexivity.
Qed.

Lemma effect_atTarget_sync (s : State) :
  flag_in_sync (state_of (effect_atTarget s)).
Proof. destruct s. reflexivity. Qed.

Lemma dispatch_sync (h : M unit) (s : State) :
  isAtTarget (state_of (h s)) = isAtTarget s ->
  flag_in_sync s -> flag_in_sync (state_of (dispatch h s)).
Proof.
  intros Hk Hs. rewrite dispatch_state.
  destruct (deps_unchanged s (state_of (h s))) eqn:D.
  - unfold flag_in_sync in *.
    unfold deps_unchanged in D. apply andb_true_iff in D. destruct D as [D1 D2].
    apply same_eq in D1, D2. rewrite Hk, Hs, D1, D2. reflexivity.
  - apply effect_atTarget_sync.
Qed.

Lemma step_sync (ev : Event) (s : State) :
  flag_in_sync s -> flag_in_sync (state_of (step JSON_parse ev s)).
Proof.
  intros H. unfold step. apply dispatch_sync; [|exact H].
  exact (handlers_keep_flag ev s).
Qed.

Lemma run_sync (evs : list Event) (s : State) :
  flag_in_sync s -> flag_in_sync (run JSON_parse evs s).
Proof.
  revert s. induction evs as [|ev evs IH]; intros s H; simpl; [exact H|].
  apply IH. apply step_sync. exact H.
Qed.

Lemma session_sync (constructed : bool) (evs : list Event) :
  flag_in_sync (session JSON_parse constructed evs).
Proof.
  unfold session. apply run_sync. destruct constructed; reflexivity.
Qed.

Lemma effect_atTarget_keeps (s : State) :
  socket_is_open (state_of (effect_atTarget s)) = socket_is_open s /\
  connected (state_of (effect_atTarget s)) = connected s.
Proof. destruct s. split; reflexivity. Qed.

Lemma dispatch_keeps (P : State -> Prop) (h : M unit) (s : State) :
  (forall s', P s' -> P (state_of (effect_atTarget s'))) ->
  P (state_of (h s)) -> P (state_of (dispatch h s)).
Proof.
  intros HP H. rewrite dispatch_state.
  destruct (deps_unchanged s (state_of (h s))); [exact H|]. apply HP, H.
Qed.

Lemma step_open_implies_connected (ev : Event) (s : State) :
  open_implies_connected s ->
  open_implies_connected (state_of (step JSON_parse ev s)).
Proof.
  intros H. unfold step. apply dispatch_keeps.
  { intros s' H'. unfold open_implies_connected.
    destruct (effect_atTarget_keeps s') as [-> ->]. exact H'. }
  destruct ev.
  - destruct s as [? ? ? ? ? ? ? ? [w|] ?]; intros _; reflexivity.
  - destruct s as [? ? ? ? ? ? ? ? [w|] ?]; intros H'; discriminate H'.
  - destruct s as [? ? ? ? ? ? ? ? [w|] ?]; intros H'; discriminate H'.
  - destruct s as [? ? ? ? ? ? ? ? [w|] ?]; intros H'; discriminate H'.
  - destruct (JSON_parse ev_data) as [data|] eqn:E.
    + rewrite (onmessage_decoded _ _ _ E). exact H.
    + rewrite (onmessage_malformed _ _ E). exact H.
  - unfold bind, get. destruct (connected s) eqn:E; [|exact H].
    pose proof (handleSet_state clock s) as Hs. unfold state_of in *.
    destruct (handleSet clock s) as [[u s1] out]. simpl in *. subst. exact H.
Qed.

Lemma session_open_implies_connected (constructed : bool) (evs : list Event) :
  open_implies_connected (session JSON_parse constructed evs).
Proof.
  unfold session.
  assert (H0 : open_implies_connected (state_of (mount constructed initialState)))
    by (destruct constructed; intros H; discriminate H).
  revert H0. generalize (state_of (mount constructed initialState)).
  induction evs as [|ev evs IH]; intros s H; simpl; [exact H|].
  apply IH. apply step_open_implies_connected. exact H.
Qed.

End SessionFacts.

(** ** Effects of a step, and the life of the socket *)

Lemma dispatch_effects (h : M unit) (s : State) :
  effects_of (dispatch h s) = effects_of (h s).
Proof.
  unfold dispatch, effects_of. destruct (h s) as [[u s1] out]. cbn [snd].
  destruct (deps_unchanged s s1); [reflexivity|].
  destruct s1. cbn. apply app_nil_r.
Qed.

Lemma handleSet_open_effects (clock : Clock) (s : State) :
  socket_is_open s = true ->
  effects_of (handleSet clock s) =
  [Send SET_command;
   Download (record_filename clock) (record_of clock s);
   Alert "SET confirmed. Position is now 0° reference."].
Proof. intros H. rewrite handleSet_effects, H. reflexivity. Qed.

Lemma handleSet_closed_effects (clock : Clock) (s : State) :
  socket_is_open s = false ->
  effects_of (handleSet clock s) = [Alert "WebSocket not connected"].
Proof. intros H. rewrite handleSet_effects, H. reflexivity. Qed.

Section SocketLife.

Variable JSON_parse : string -> option Frame.t.

Lemma press_effects (clock : Clock) (s : State) :
  effects_of (step JSON_parse (PressSet clock) s) =
  if connected s then effects_of (handleSet clock s) else [].
Proof.
  unfold step. rewrite dispatch_effects. unfold bind, get, effects_of.
  destruct (connected s); [|reflexivity].
  destruct (handleSet clock s) as [[u s1] out]. reflexivity.
Qed.

Lemma run_app (evs1 evs2 : list Event) (s : State) :
  run JSON_parse (evs1 ++ evs2) s = run JSON_parse evs2 (run JSON_parse evs1 s).
Proof.
  revert s. induction evs1 as [|ev evs1 IH]; intros s; simpl; [reflexivity|].
  apply IH.
Qed.

Lemma step_ws_present (ev : Event) (s : State) :
  ws_present s -> ws_present (state_of (step JSON_parse ev s)).
Proof.
  intros H. unfold step. apply dispatch_keeps.
  { intros s' H'. destruct s'. exact H'. }
  unfold ws_present in *. destruct ev.
  - destruct s as [? ? ? ? ? ? ? ? [w|] ?]; [discriminate|exact H].
  - destruct s as [? ? ? ? ? ? ? ? [w|] ?]; [discriminate|exact H].
  - destruct s as [? ? ? ? ? ? ? ? [w|] ?]; [discriminate|exact H].
  - destruct s as [? ? ? ? ? ? ? ? [w|] ?]; [discriminate|exact H].
  - destruct (JSON_parse ev_data) as [data|] eqn:E.
    + rewrite (onmessage_decoded _ _ _ _ E). exact H.
    + rewrite (onmessage_malformed _ _ _ E). exact H.
  - rewrite press_state. exact H.
Qed.

Lemma session_ws_present (evs : list Event) :
  ws_present (session JSON_parse true evs).
Proof.
  unfold session.
  assert (H0 : ws_present (state_of (mount true initialState))) by discriminate.
  revert H0. generalize (state_of (mount true initialState)).
  induction evs as [|ev evs IH]; intros s H; simpl; [exact H|].
  apply IH. apply step_ws_present. exact H.
Qed.

Lemma step_open (s : State) :
  ws_present s ->
  socket_is_open (state_of (step JSON_parse SocketOpen s)) = true /\
  connected (state_of (step JSON_parse SocketOpen s)) = true.
Proof.
  intros H. unfold step.
  apply (dispatch_keeps (fun s' => socket_is_open s' = true /\ connected s' = true)).
  { intros s' H'. destruct s'. exact H'. }
  unfold ws_present in H.
  destruct s as [? ? ? ? ? ? ? ? [w|] ?]; [split; reflexivity|contradiction].
Qed.

End SocketLife.

(** ** C3: on-target decision *)

(** C3.  For every pair of signed errors, the on-target decision is true iff
    |pitchError| < 0.2 and |rollError| < 0.2, both strict: an error of
    exactly 0.2 (or -0.2) in either axis makes it false, whereas 0.19 with
    the other axis at 0 makes it true.  In every state of a session the
    [isAtTarget] flag is that decision on the current errors. *)
Theorem atTarget_iff_both_below (pitchError' rollError' : float) :
  (atTarget rollError' pitchError' = true <->
     Number.lt (Math.abs pitchError') 0.2 = true /\
     Number.lt (Math.abs rollError') 0.2 = true) /\
  atTarget rollError' 0.2 = false /\ atTarget 0.2 pitchError' = false /\
  atTarget rollError' (-0.2) = false /\ atTarget (-0.2) pitchError' = false /\
  atTarget 0 0.19 = true /\
  (forall JSON_parse constructed evs,
     let s := session JSON_parse constructed evs in
     isAtTarget s = true <->
     Number.lt (Math.abs (pitchError s)) 0.2 = true /\
     Number.lt (Math.abs (rollError s)) 0.2 = true).
Proof.
  split; [unfold atTarget; rewrite andb_true_iff; tauto|].
  split; [unfold atTarget; apply andb_false_iff; right; reflexivity|].
  split; [unfold atTarget; apply andb_false_iff; left; reflexivity|].
  split; [unfold atTarget; apply andb_false_iff; right; reflexivity|].
  split; [unfold atTarget; apply andb_false_iff; left; reflexivity|].
  split; [reflexivity|].
  intros JSON_parse constructed evs s. subst s.
  rewrite (session_sync JSON_parse constructed evs).
  unfold atTarget. rewrite andb_true_iff. tauto.
Qed.

(** ** C5: malformed frames *)

(** C5.  A frame whose text does not decode leaves every cell of the state
    as it was (the handler only logs): the state after a valid frame followed
    by the malformed one is the state after the valid frame alone, and the
    session goes on as if the malformed frame had not arrived. *)
Theorem malformed_frame_discarded
  (JSON_parse : string -> option Frame.t) (ev_data : string) (s : State) :
  JSON_parse ev_data = None ->
  onmessage JSON_parse ev_data s = (tt, s, [ConsoleError]) /\
  state_of (step JSON_parse (SocketMessage ev_data) s) = s /\
  (forall valid,
     run JSON_parse [SocketMessage valid; SocketMessage ev_data] s =
     run JSON_parse [SocketMessage valid] s) /\
  (forall evs, run JSON_parse (SocketMessage ev_data :: evs) s = run JSON_parse evs s).
Proof.
  intros H.
  assert (Hstep : forall s', state_of (step JSON_parse (SocketMessage ev_data) s') = s').
  { intros s'. unfold step. apply dispatch_unchanged.
    rewrite (onmessage_malformed _ _ _ H). reflexivity. }
  split; [apply onmessage_malformed; exact H|].
  split; [apply Hstep|]. split.
  - intros valid. simpl. rewrite Hstep. reflexivity.
  - intros evs. simpl. rewrite Hstep. reflexivity.
Qed.

Lemma malformed_frame_discarded_witness :
  sample_parse "{oops" = None /\
  state_of (step sample_parse (SocketMessage "{oops") initialState) = initialState.
Proof.
  split; [reflexivity|].
  exact (proj1 (proj2
    (malformed_frame_discarded sample_parse "{oops" initialState eq_refl))).
Defined.

(** ** C8: independent payloads *)

(** C8.  A decoded frame overwrites exactly the entities whose payload it
    carries: the orientation sample from [imu], the position sample from
    [gnss], the correction vector from [corrections], the target from
    [target]; every entity whose payload is absent, and the connection
    cells, stay as they were.  A frame with only a [gnss] payload changes the
    position sample and nothing else. *)
Theorem frame_payloads_independent
  (JSON_parse : string -> option Frame.t) (ev_data : string) (data : Frame.t)
  (s : State) :
  JSON_parse ev_data = Some data ->
  let s' := state_of (onmessage JSON_parse ev_data s) in
  (pitch s', roll s', yaw s', heading s') =
    match Frame.imu data with
    | Some i => (Imu.pitch i, Imu.roll i, Imu.yaw i, Imu.heading i)
    | None => (pitch s, roll s, yaw s, heading s)
    end /\
  gnss s' = match Frame.gnss data with Some g => g | None => gnss s end /\
  corrections s' =
    match Frame.corrections data with Some c => c | None => corrections s end /\
  target s' = match Frame.target data with Some t => t | None => target s end /\
  connected s' = connected s /\ ws s' = ws s /\
  (forall g, data = Frame.mk None (Some g) None None ->
     let only_gnss :=
       mkState (pitch s) (roll s) (yaw s) (heading s) g (connected s)
               (target s) (corrections s) (ws s) (isAtTarget s) in
     s' = only_gnss /\
     state_of (step JSON_parse (SocketMessage ev_data) s) = only_gnss).
Proof.
  intros H s'. subst s'. rewrite (onmessage_decoded _ _ _ _ H). cbn [pitch roll yaw
    heading gnss corrections target connected ws].
  repeat split; try (destruct (Frame.imu data); reflexivity).
  - subst data. reflexivity.
  - subst data. unfold step. rewrite dispatch_state.
    rewrite (onmessage_decoded _ _ _ _ H). cbn [Frame.imu Frame.gnss Frame.corrections
      Frame.target].
    unfold deps_unchanged, rollError, pitchError. cbn [pitch roll target].
    rewrite !same_refl. reflexivity.
Qed.

Lemma frame_payloads_independent_witness :
  gnss_only_parse "gnss only" = Some (Frame.mk None (Some sample_gnss) None None) /\
  gnss (state_of (onmessage gnss_only_parse "gnss only" initialState)) = sample_gnss.
Proof.
  split; [reflexivity|].
  exact (proj1 (proj2
    (frame_payloads_independent gnss_only_parse "gnss only" _ initialState eq_refl))).
Defined.

(** ** C6: the connection gate of the confirmation *)

(** C6 (as amended).  [handleSet] gates on the socket itself: while
    [ws.readyState] is not OPEN it raises the alert [WebSocket not connected]
    and does nothing else (no command, no record); while it is OPEN it sends
    the text of [{command: "SET"}] exactly once, offers exactly one record
    (the file [Artillery_<Date.now()>.txt] holding the record text) and
    raises the confirmation alert.  The SET button is disabled while the
    [connected] cell is false: a press then reaches no handler and has no
    effect at all, and in a session the socket is never open in that case;
    while the cell is true a press runs [handleSet].  After an [open] event
    on a constructed socket the socket is open and the cell is true. *)
Theorem handleSet_connection_gate
  (JSON_parse : string -> option Frame.t) (clock : Clock) (s : State) :
  (socket_is_open s = false ->
     effects_of (handleSet clock s) = [Alert "WebSocket not connected"]) /\
  (socket_is_open s = true ->
     effects_of (handleSet clock s) =
       [Send SET_command;
        Download (record_filename clock) (record_of clock s);
        Alert "SET confirmed. Position is now 0° reference."] /\
     sent (effects_of (handleSet clock s)) = [SET_command] /\
     records (effects_of (handleSet clock s)) =
       [(record_filename clock, record_of clock s)]) /\
  (connected s = false ->
     state_of (step JSON_parse (PressSet clock) s) = s /\
     effects_of (step JSON_parse (PressSet clock) s) = []) /\
  (connected s = true ->
     effects_of (step JSON_parse (PressSet clock) s) = effects_of (handleSet clock s)) /\
  (forall constructed evs,
     connected (session JSON_parse constructed evs) = false ->
     socket_is_open (session JSON_parse constructed evs) = false) /\
  (forall evs,
     socket_is_open (session JSON_parse true (evs ++ [SocketOpen])) = true /\
     connected (session JSON_parse true (evs ++ [SocketOpen])) = true).
Proof.
  split; [apply handleSet_closed_effects|].
  split.
  { intros H. rewrite (handleSet_open_effects clock s H). repeat split. }
  split.
  { intros H. split.
    - unfold step. apply dispatch_unchanged. apply press_state.
    - rewrite press_effects, H. reflexivity. }
  split.
  { intros H. rewrite press_effects, H. reflexivity. }
  split.
  - intros constructed evs H.
    pose proof (session_open_implies_connected JSON_parse constructed evs) as I.
    unfold open_implies_connected in I.
    destruct (socket_is_open _); [|reflexivity].
    rewrite (I eq_refl) in H. discriminate.
  - intros evs. unfold session. rewrite run_app. cbn [run].
    apply step_open. apply (session_ws_present JSON_parse evs).
Qed.

(** C6, the claim as written fails on the [connected] cell.  While the
    closing handshake runs the cell is still true, yet a confirmation raises
    [WebSocket not connected] and sends nothing; and before the socket has
    opened the cell is false and a press of the disabled button raises
    nothing at all. *)
Lemma connected_cell_is_not_the_gate :
  let closing := session sample_parse true [SocketOpen; SocketClosing] in
  let offline := session sample_parse true [] in
  connected closing = true /\
  effects_of (step sample_parse (PressSet sample_clock) closing) =
    [Alert "WebSocket not connected"] /\
  connected offline = false /\
  effects_of (step sample_parse (PressSet sample_clock) offline) = [].
Proof. repeat split; vm_compute; reflexivity. Qed.

(** ** C10: the confirmation writes no state *)

(** C10 (as amended).  A confirmation leaves every cell of the state as it
    was: orientation, target, position, corrections, connection and flag.
    When the socket is open its effects are three: the command is sent, the
    record is offered as a file, and the alert
    [SET confirmed. Position is now 0° reference.] is raised.  The target is
    not zeroed by the confirmation: a step changes the target only when it
    is a decoded frame that carries a target payload. *)
Theorem handleSet_keeps_state
  (JSON_parse : string -> option Frame.t) (clock : Clock) (s : State) :
  state_of (handleSet clock s) = s /\
  state_of (step JSON_parse (PressSet clock) s) = s /\
  (socket_is_open s = true ->
     effects_of (handleSet clock s) =
       [Send SET_command;
        Download (record_filename clock) (record_of clock s);
        Alert "SET confirmed. Position is now 0° reference."]) /\
  (forall ev,
     target (state_of (step JSON_parse ev s)) <> target s ->
     exists ev_data data t,
       ev = SocketMessage ev_data /\ JSON_parse ev_data = Some data /\
       Frame.target data = Some t).
Proof.
  split; [apply handleSet_state|]. split; [|split].
  - unfold step. apply dispatch_unchanged. apply press_state.
  - apply handleSet_open_effects.
  - intros ev H.
    assert (Hkeep : forall h : M unit,
               target (state_of (h s)) = target s ->
               target (state_of (dispatch h s)) = target s).
    { intros h Hh. rewrite dispatch_state.
      destruct (deps_unchanged s (state_of (h s))); [exact Hh|].
      rewrite <- Hh. destruct (state_of (h s)). reflexivity. }
    destruct ev;
      try (exfalso; apply H; unfold step; apply Hkeep;
           destruct s as [? ? ? ? ? ? ? ? [w|] ?]; reflexivity).
    + destruct (JSON_parse ev_data) as [data|] eqn:E.
      * destruct (Frame.target data) as [t|] eqn:Et.
        { exists ev_data, data, t. auto. }
        exfalso. apply H. unfold step. apply Hkeep.
        rewrite (onmessage_decoded _ _ _ _ E), Et. reflexivity.
      * exfalso. apply H. unfold step. apply Hkeep.
        rewrite (onmessage_malformed _ _ _ E). reflexivity.
    + exfalso. apply H. unfold step. apply Hkeep.
      rewrite press_state. reflexivity.
Qed.

(** C10, the claim as written fails: besides the command and the record a
    successful confirmation has a third effect, the alert raised to the
    operator. *)
Lemma handleSet_also_alerts :
  socket_is_open sample_state = true /\
  List.length (effects_of (handleSet sample_clock sample_state)) = 3%nat /\
  alerts (effects_of (handleSet sample_clock sample_state)) =
    ["SET confirmed. Position is now 0° reference."%string].
Proof. repeat split; vm_compute; reflexivity. Qed.

(** ** C7: the session record *)

Module FormatFacts.

Import Format.
Local Open Scope string_scope.

Lemma length_app (a b : string) :
  String.length (a ++ b) = (String.length a + String.length b)%nat.
Proof. induction a as [|c a IH]; simpl; [reflexivity|]. rewrite IH. reflexivity. Qed.














Lemma digits2_pos_bound (m : positive) : (Z.pos m < 2 ^ Z.pos (digits2_pos m))%Z.
Proof.
  induction m as [m IH|m IH|]; simpl digits2_pos;
    rewrite ?Pos2Z.inj_succ, ?Z.pow_succ_r by lia; try reflexivity; lia.
Qed.

Lemma digits2_pos_lower (m : positive) : (2 ^ (Z.pos (digits2_pos m) - 1) <= Z.pos m)%Z.
Proof.
  induction m as [m IH|m IH|]; simpl digits2_pos;
    rewrite ?Pos2Z.inj_succ; try reflexivity;
    replace (Z.succ (Z.pos (digits2_pos m)) - 1)%Z
      with (Z.succ (Z.pos (digits2_pos m) - 1))%Z by lia;
    rewrite Z.pow_succ_r by lia; lia.
Qed.





End FormatFacts.




(** * Rounding in binary64 arithmetic

    Facts about [binary_round_aux], the rounding step shared by the
    multiplication and the division of [SpecFloat], which specify the
    primitive operations. *)

Module Rounding.

Local Open Scope Z_scope.

Lemma shr_1_m (mrs : shr_record) :
  0 <= shr_m mrs -> shr_m (shr_1 mrs) = shr_m mrs / 2.
Proof.
  destruct mrs as [m r s]. cbn [shr_m]. intros H.
  destruct m as [|p|p]; [reflexivity| |lia].
  destruct p as [p|p|]; cbn [shr_1 shr_m].
  - rewrite (Pos2Z.inj_xI p). apply Z.div_unique with 1; lia.
  - rewrite (Pos2Z.inj_xO p). apply Z.div_unique with 0; lia.
  - reflexivity.
Qed.

Lemma shr_1_exact (mrs : shr_record) :
  0 <= shr_m mrs -> inexact mrs = false -> shr_m mrs mod 2 = 0 ->
  inexact (shr_1 mrs) = false.
Proof.
  destruct mrs as [m r s]. unfold inexact. cbn [shr_m shr_r shr_s].
  intros H E M. apply orb_false_iff in E. destruct E as [-> ->].
  destruct m as [|p|p]; [reflexivity| |lia].
  destruct p as [p|p|]; cbn [shr_1 shr_r shr_s]; try reflexivity.
  - rewrite (Pos2Z.inj_xI p) in M. exfalso.
    rewrite Z.add_comm, Z.mul_comm, Z.mod_add in M by lia. discriminate M.
  - discriminate M.
Qed.

Lemma pow2_xO (p : positive) : 2 ^ Z.pos p~0 = 2 ^ Z.pos p * 2 ^ Z.pos p.
Proof.
  rewrite (Pos2Z.inj_xO p). replace (2 * Z.pos p) with (Z.pos p + Z.pos p) by lia.
  apply Z.pow_add_r; lia.
Qed.

Lemma pow2_xI (p : positive) : 2 ^ Z.pos p~1 = 2 * (2 ^ Z.pos p * 2 ^ Z.pos p).
Proof.
  rewrite (Pos2Z.inj_xI p). rewrite <- pow2_xO, (Pos2Z.inj_xO p).
  replace (2 * Z.pos p + 1) with (Z.succ (2 * Z.pos p)) by lia.
  apply Z.pow_succ_r. lia.
Qed.

Lemma pow2_pos (n : Z) : 0 <= n -> 0 < 2 ^ n.
Proof. intros H. apply Z.pow_pos_nonneg; lia. Qed.

Lemma iter_shr_1_m (p : positive) :
  forall mrs, 0 <= shr_m mrs ->
    shr_m (SpecFloat.iter_pos shr_1 p mrs) = shr_m mrs / 2 ^ Z.pos p.
Proof.
  induction p as [p IH|p IH|]; intros mrs H; cbn [SpecFloat.iter_pos].
  - assert (P : 0 < 2 ^ Z.pos p) by (apply pow2_pos; lia).
    assert (H1 : 0 <= shr_m (shr_1 mrs)).
    { rewrite shr_1_m by exact H. apply Z.div_pos; lia. }
    assert (H2 : 0 <= shr_m (SpecFloat.iter_pos shr_1 p (shr_1 mrs))).
    { rewrite IH by exact H1. apply Z.div_pos; [exact H1|exact P]. }
    rewrite IH by exact H2. rewrite IH by exact H1. rewrite shr_1_m by exact H.
    rewrite pow2_xI. rewrite !Z.div_div by lia. f_equal.
  - assert (P : 0 < 2 ^ Z.pos p) by (apply pow2_pos; lia).
    assert (H2 : 0 <= shr_m (SpecFloat.iter_pos shr_1 p mrs)).
    { rewrite IH by exact H. apply Z.div_pos; [exact H|exact P]. }
    rewrite IH by exact H2. rewrite IH by exact H.
    rewrite pow2_xO. rewrite !Z.div_div by lia. reflexivity.
  - rewrite shr_1_m by exact H. reflexivity.
Qed.

Lemma mod_pow_split (m a b : Z) :
  0 <= a -> 0 <= b -> m mod 2 ^ (a + b) = 0 ->
  m mod 2 ^ a = 0 /\ (m / 2 ^ a) mod 2 ^ b = 0.
Proof.
  intros Ha Hb H.
  assert (Pa : 0 < 2 ^ a) by (apply Z.pow_pos_nonneg; lia).
  assert (Pb : 0 < 2 ^ b) by (apply Z.pow_pos_nonneg; lia).
  rewrite Z.pow_add_r in H by lia.
  apply Z.mod_divide in H; [|nia]. destruct H as [k Hk].
  split.
  - apply Z.mod_divide; [lia|]. exists (k * 2 ^ b). lia.
  - replace m with (k * 2 ^ b * 2 ^ a) by lia.
    rewrite Z.div_mul by lia. apply Z.mod_mul. lia.
Qed.

Lemma iter_shr_1_exact (p : positive) :
  forall mrs, 0 <= shr_m mrs -> inexact mrs = false ->
    shr_m mrs mod 2 ^ Z.pos p = 0 ->
    inexact (SpecFloat.iter_pos shr_1 p mrs) = false.
Proof.
  induction p as [p IH|p IH|]; intros mrs H E M; cbn [SpecFloat.iter_pos].
  - rewrite (Pos2Z.inj_xI p) in M.
    replace (2 * Z.pos p + 1) with (1 + (Z.pos p + Z.pos p)) in M by lia.
    apply mod_pow_split in M; [|lia|lia]. destruct M as [M1 M2].
    rewrite Z.pow_1_r in M1, M2.
    apply mod_pow_split in M2; [|lia|lia]. destruct M2 as [M2 M3].
    assert (H1 : 0 <= shr_m (shr_1 mrs)).
    { rewrite shr_1_m by exact H. apply Z.div_pos; lia. }
    assert (H2 : 0 <= shr_m (SpecFloat.iter_pos shr_1 p (shr_1 mrs))).
    { rewrite iter_shr_1_m by exact H1. apply Z.div_pos; [exact H1|].
      apply Z.pow_pos_nonneg; lia. }
    apply IH; [exact H2| |].
    + apply IH; [exact H1| |].
      * apply shr_1_exact; assumption.
      * rewrite shr_1_m by exact H. exact M2.
    + rewrite iter_shr_1_m by exact H1. rewrite shr_1_m by exact H. exact M3.
  - rewrite (Pos2Z.inj_xO p) in M.
    replace (2 * Z.pos p) with (Z.pos p + Z.pos p) in M by lia.
    apply mod_pow_split in M; [|lia|lia]. destruct M as [M1 M2].
    assert (H2 : 0 <= shr_m (SpecFloat.iter_pos shr_1 p mrs)).
    { rewrite iter_shr_1_m by exact H. apply Z.div_pos; [exact H|].
      apply Z.pow_pos_nonneg; lia. }
    apply IH; [exact H2| |].
    + apply IH; assumption.
    + rewrite iter_shr_1_m by exact H. exact M2.
  - apply shr_1_exact; [exact H|exact E|]. rewrite Z.pow_1_r in M. exact M.
Qed.


Lemma Zdigits2_pos_bounds (m : positive) :
  2 ^ (Zdigits2 (Z.pos m) - 1) <= Z.pos m < 2 ^ Zdigits2 (Z.pos m).
Proof.
  cbn [Zdigits2]. split.
  - apply FormatFacts.digits2_pos_lower.
  - apply FormatFacts.digits2_pos_bound.
Qed.

Lemma shr_m_of_loc (m : Z) (l : location) : shr_m (shr_record_of_loc m l) = m.
Proof. destruct l as [|[| |]]; reflexivity. Qed.

Lemma inexact_of_loc (m : Z) (l : location) :
  inexact (shr_record_of_loc m l) = match l with loc_Exact => false | _ => true end.
Proof. destruct l as [|[| |]]; reflexivity. Qed.

Lemma loc_of_exact (mrs : shr_record) :
  inexact mrs = false -> loc_of_shr_record mrs = loc_Exact.
Proof.
  destruct mrs as [m r s]. unfold inexact. cbn [shr_r shr_s]. intros H.
  apply orb_false_iff in H. destruct H as [-> ->]. reflexivity.
Qed.

Lemma round_nearest_even_bounds (m : Z) (l : location) :
  m <= round_nearest_even m l <= m + 1 /\
  (l = loc_Exact -> round_nearest_even m l = m).
Proof.
  destruct l as [|[| |]]; cbn [round_nearest_even];
    try destruct (Z.even m); split; try lia; try reflexivity; discriminate.
Qed.

(** What [shr] does to a non-negative mantissa. *)
Lemma shr_spec (mrs : shr_record) (e n : Z) :
  0 <= shr_m mrs ->
  (n <= 0 -> shr mrs e n = (mrs, e)) /\
  (0 < n ->
     snd (shr mrs e n) = e + n /\
     shr_m (fst (shr mrs e n)) = shr_m mrs / 2 ^ n /\
     (inexact mrs = false -> shr_m mrs mod 2 ^ n = 0 ->
      inexact (fst (shr mrs e n)) = false)).
Proof.
  intros H. unfold shr. destruct n as [|p|p].
  - split; [reflexivity|lia].
  - split; [lia|]. intros _. cbn [fst snd].
    split; [reflexivity|]. split.
    + apply iter_shr_1_m. exact H.
    + apply iter_shr_1_exact. exact H.
  - split; [reflexivity|lia].
Qed.


Lemma fexp_eq (x : Z) : fexp prec emax x = Z.max (x - 53) (-1074).
Proof. reflexivity. Qed.

Lemma bounded_spec (mc : positive) (ec : Z) :
  bounded prec emax mc ec = true ->
  ec = Z.max (Z.pos (digits2_pos mc) + ec - 53) (-1074) /\ ec <= 971.
Proof.
  unfold bounded, canonical_mantissa. rewrite fexp_eq. intros H.
  apply andb_true_iff in H. destruct H as [H1 H2].
  apply Z.eqb_eq in H1. apply Z.leb_le in H2.
  change (emax - prec) with 971 in H2. split; [symmetry; exact H1|exact H2].
Qed.

Lemma Zdigits2_nonneg (m : Z) : 0 <= Zdigits2 m.
Proof. destruct m; simpl; lia. Qed.

(** A mantissa below [mc * 2^(ec - e)] has no more digits, exponent
    included, than [mc]. *)
Lemma digits_below (m e : Z) (mc : positive) (ec : Z) :
  0 <= m -> e <= ec -> m <= Z.pos mc * 2 ^ (ec - e) ->
  Zdigits2 m + e <= Z.pos (digits2_pos mc) + ec.
Proof.
  intros Hm He Hc. destruct m as [|p|p]; [change (Zdigits2 0) with 0; lia| |lia].
  destruct (Zdigits2_pos_bounds p) as [Hl _].
  pose proof (FormatFacts.digits2_pos_bound mc) as Hu.
  assert (P : 0 < 2 ^ (ec - e)) by (apply pow2_pos; lia).
  assert (H : 2 ^ (Zdigits2 (Z.pos p) - 1) < 2 ^ (Z.pos (digits2_pos mc) + (ec - e))).
  { rewrite Z.pow_add_r by lia. nia. }
  apply Z.pow_lt_mono_r_iff in H; lia.
Qed.

Lemma shr_fexp_below (m e : Z) (l : location) (mc : positive) (ec : Z) :
  0 <= m -> bounded prec emax mc ec = true ->
  below m e (is_exact l) mc ec ->
  0 <= shr_m (fst (shr_fexp prec emax m e l)) /\
  below (shr_m (fst (shr_fexp prec emax m e l))) (snd (shr_fexp prec emax m e l))
        (negb (inexact (fst (shr_fexp prec emax m e l)))) mc ec.
Proof.
  intros Hm Hb [He Hc]. apply bounded_spec in Hb. destruct Hb as [Hcan Hmax].
  assert (Hle : m <= Z.pos mc * 2 ^ (ec - e)) by (destruct (is_exact l); lia).
  unfold shr_fexp. rewrite fexp_eq.
  set (mrs := shr_record_of_loc m l).
  set (n := Z.max (Zdigits2 m + e - 53) (-1074) - e).
  assert (Hmrs : 0 <= shr_m mrs) by (unfold mrs; rewrite shr_m_of_loc; exact Hm).
  destruct (shr_spec mrs e n Hmrs) as [S0 S1].
  destruct (Z_le_gt_dec n 0) as [Hn|Hn].
  - rewrite (S0 Hn). cbn [fst snd]. unfold mrs.
    rewrite shr_m_of_loc, inexact_of_loc. split; [exact Hm|].
    split; [exact He|]. destruct l as [|[| |]]; exact Hc.
  - destruct S1 as [Se [Sm Sx]]; [lia|]. rewrite Se, Sm.
    unfold mrs at 1 2. rewrite shr_m_of_loc.
    pose proof (digits_below m e mc ec Hm He Hle) as Hd.
    assert (He' : e + n <= ec) by (unfold n; lia).
    assert (P : 0 < 2 ^ n) by (apply pow2_pos; lia).
    assert (Hsplit : 2 ^ (ec - e) = 2 ^ (ec - (e + n)) * 2 ^ n).
    { rewrite <- Z.pow_add_r by lia. f_equal. lia. }
    set (C1 := Z.pos mc * 2 ^ (ec - (e + n))).
    assert (HC : Z.pos mc * 2 ^ (ec - e) = C1 * 2 ^ n) by (unfold C1; rewrite Hsplit; ring).
    split; [apply Z.div_pos; [exact Hm|exact P]|].
    split; [exact He'|]. fold C1.
    pose proof (Z.div_mod m (2 ^ n) ltac:(lia)) as Hdm.
    pose proof (Z.mod_pos_bound m (2 ^ n) P) as Hmod.
    destruct (inexact (fst (shr mrs e n))) eqn:X; cbn [negb].
    + destruct (is_exact l) eqn:L.
      * assert (Hne : m mod 2 ^ n <> 0).
        { intros Hz. assert (F : true = false); [|discriminate F].
          apply Sx.
          - unfold mrs. rewrite inexact_of_loc.
            destruct l; [reflexivity|discriminate L].
          - unfold mrs. rewrite shr_m_of_loc. exact Hz. }
        nia.
      * nia.
    + nia.
Qed.


Lemma shr_fexp_nonneg (m e : Z) (l : location) :
  0 <= m -> 0 <= shr_m (fst (shr_fexp prec emax m e l)).
Proof.
  intros Hm. unfold shr_fexp.
  set (mrs := shr_record_of_loc m l).
  set (n := fexp prec emax (Zdigits2 m + e) - e).
  assert (Hmrs : 0 <= shr_m mrs) by (unfold mrs; rewrite shr_m_of_loc; exact Hm).
  destruct (shr_spec mrs e n Hmrs) as [S0 S1].
  destruct (Z_le_gt_dec n 0) as [Hn|Hn].
  - rewrite (S0 Hn). exact Hmrs.
  - destruct S1 as [_ [Sm _]]; [lia|]. rewrite Sm.
    apply Z.div_pos; [exact Hmrs|apply pow2_pos; lia].
Qed.

(** Rounding a non-negative mantissa gives a zero, a number or an infinity
    of the requested sign, never NaN. *)
Lemma binary_round_aux_sign (sx : bool) (m e : Z) (l : location) :
  0 <= m ->
  binary_round_aux prec emax sx m e l = S754_zero sx \/
  binary_round_aux prec emax sx m e l = S754_infinity sx \/
  exists m' e', binary_round_aux prec emax sx m e l = S754_finite sx m' e'.
Proof.
  intros Hm. unfold binary_round_aux.
  pose proof (shr_fexp_nonneg m e l Hm) as H1.
  destruct (shr_fexp prec emax m e l) as [mrs' e'] eqn:E1. cbn [fst] in H1.
  set (m2 := round_nearest_even (shr_m mrs') (loc_of_shr_record mrs')).
  assert (H2 : 0 <= m2).
  { unfold m2.
    destruct (round_nearest_even_bounds (shr_m mrs') (loc_of_shr_record mrs')) as [B _].
    lia. }
  pose proof (shr_fexp_nonneg m2 e' loc_Exact H2) as H3.
  destruct (shr_fexp prec emax m2 e' loc_Exact) as [mrs'' e''] eqn:E2. cbn [fst] in H3.
  destruct (shr_m mrs'') as [|p|p]; [left; reflexivity| |lia].
  destruct (e'' <=? emax - prec); [right; right; eauto|right; left; reflexivity].
Qed.

(** Rounding to nearest does not cross a binary64 number: a value at most
    [mc * 2^ec] rounds to a result at most [mc * 2^ec]. *)
Lemma binary_round_aux_at_most (m e : Z) (l : location) (mc : positive) (ec : Z) :
  0 <= m -> bounded prec emax mc ec = true ->
  below m e (is_exact l) mc ec ->
  at_most (binary_round_aux prec emax false m e l) mc ec.
Proof.
  intros Hm Hb Hbelow. unfold binary_round_aux.
  destruct (shr_fexp_below m e l mc ec Hm Hb Hbelow) as [H1 [He1 Hc1]].
  destruct (shr_fexp prec emax m e l) as [mrs' e'] eqn:E1. cbn [fst snd] in *.
  set (m2 := round_nearest_even (shr_m mrs') (loc_of_shr_record mrs')).
  destruct (round_nearest_even_bounds (shr_m mrs') (loc_of_shr_record mrs'))
    as [B Bx]. fold m2 in B, Bx.
  assert (H2 : 0 <= m2) by lia.
  assert (Hbelow2 : below m2 e' (is_exact loc_Exact) mc ec).
  { split; [exact He1|]. cbn [is_exact].
    destruct (inexact mrs') eqn:X; cbn [negb] in Hc1.
    - lia.
    - rewrite (Bx (loc_of_exact mrs' X)). exact Hc1. }
  destruct (shr_fexp_below m2 e' loc_Exact mc ec H2 Hb Hbelow2) as [H3 [He3 Hc3]].
  destruct (shr_fexp prec emax m2 e' loc_Exact) as [mrs'' e''] eqn:E2.
  cbn [fst snd] in *.
  assert (Hle3 : shr_m mrs'' <= Z.pos mc * 2 ^ (ec - e''))
    by (destruct (negb (inexact mrs'')); lia).
  destruct (bounded_spec mc ec Hb) as [_ Hmax].
  destruct (shr_m mrs'') as [|p|p] eqn:M3; [left; reflexivity| |lia].
  replace (e'' <=? emax - prec) with true
    by (symmetry; apply Z.leb_le; change (emax - prec) with 971; lia).
  right. exists p, e''. split; [reflexivity|].
  destruct (Z.eq_dec e'' ec) as [->|Hne]; [right|left; lia].
  split; [reflexivity|]. rewrite Z.sub_diag, Z.pow_0_r, Z.mul_1_r in Hle3. exact Hle3.
Qed.


(** *** Multiplication and division of non-negative values *)

Lemma SFdiv_core_spec (m1 e1 m2 e2 : Z) :
  let e' := Z.min (fexp prec emax (Zdigits2 m1 + e1 - (Zdigits2 m2 + e2))) (e1 - e2) in
  let m' := match e1 - e2 - e' with
            | Z.pos _ => Z.shiftl m1 (e1 - e2 - e')
            | 0 => m1
            | Z.neg _ => 0
            end in
  SFdiv_core_binary prec emax m1 e1 m2 e2 = (m' / m2, e', new_location m2 (m' mod m2)).
Proof.
  intros e' m'. unfold SFdiv_core_binary. fold e'. fold m'.
  unfold Z.div, Z.modulo. destruct (Z.div_eucl m' m2) as [q r]. reflexivity.
Qed.

Lemma is_exact_new_location (n k : Z) : is_exact (new_location n k) = (k =? 0).
Proof.
  unfold new_location, new_location_even, new_location_odd.
  destruct (Z.even n); destruct (k =? 0); reflexivity.
Qed.

Lemma SFmul_nonneg (x : spec_float) (my : positive) (ey : Z) :
  nonneg_sf x -> nonneg_sf (SF64mul x (S754_finite false my ey)).
Proof.
  intros [->|[->|[mx [ex ->]]]]; unfold SF64mul, SFmul.
  - left. reflexivity.
  - right. left. reflexivity.
  - cbn [xorb].
    assert (Hq : 0 <= Z.pos (mx * my)) by lia.
    destruct (binary_round_aux_sign false (Z.pos (mx * my)) (ex + ey) loc_Exact Hq)
      as [H|[H|[m' [e' H]]]]; unfold nonneg_sf; rewrite H; eauto.
Qed.

Lemma SFdiv_nonneg (x : spec_float) (my : positive) (ey : Z) :
  nonneg_sf x -> nonneg_sf (SF64div x (S754_finite false my ey)).
Proof.
  intros [->|[->|[mx [ex ->]]]]; unfold SF64div, SFdiv.
  - left. reflexivity.
  - right. left. reflexivity.
  - cbn [xorb]. rewrite SFdiv_core_spec.
    match goal with
    | |- nonneg_sf (binary_round_aux _ _ _ ?q ?e ?l) =>
        assert (Hq : 0 <= q);
        [|destruct (binary_round_aux_sign false q e l Hq) as [H|[H|[m' [e' H]]]];
          unfold nonneg_sf; rewrite H; eauto]
    end.
    apply Z.div_pos; [|lia].
    match goal with
    | |- 0 <= match ?s with _ => _ end => destruct s eqn:S; try lia
    end.
    rewrite Z.shiftl_mul_pow2 by lia.
    apply Z.mul_nonneg_nonneg; [lia|]. apply Z.lt_le_incl, pow2_pos. lia.
Qed.


(** For two positive binary64 numbers, the order on (exponent, mantissa)
    is the order of the values. *)
Lemma value_le (ma : positive) (ea : Z) (ms : positive) (es : Z) :
  bounded prec emax ma ea = true -> bounded prec emax ms es = true ->
  ea < es \/ (ea = es /\ Z.pos ma <= Z.pos ms) ->
  ea <= es /\ Z.pos ma <= Z.pos ms * 2 ^ (es - ea).
Proof.
  intros Ha Hs H. apply bounded_spec in Ha, Hs.
  destruct Ha as [Ha _], Hs as [Hs _].
  destruct H as [H|[-> H]].
  - split; [lia|].
    pose proof (FormatFacts.digits2_pos_bound ma) as Ua.
    pose proof (FormatFacts.digits2_pos_lower ms) as Ls.
    assert (Da : Z.pos (digits2_pos ma) <= 53) by lia.
    assert (Ds : Z.pos (digits2_pos ms) = 53) by lia.
    rewrite Ds in Ls. change (2 ^ (53 - 1)) with 4503599627370496 in Ls.
    assert (Ua' : Z.pos ma < 2 ^ 53).
    { eapply Z.lt_le_trans; [exact Ua|]. apply Z.pow_le_mono_r; lia. }
    change (2 ^ 53) with 9007199254740992 in Ua'.
    assert (P : 2 ^ 1 <= 2 ^ (es - ea)) by (apply Z.pow_le_mono_r; lia).
    change (2 ^ 1) with 2 in P. nia.
  - split; [lia|]. rewrite Z.sub_diag, Z.pow_0_r. lia.
Qed.

(** The quotient of a positive number by one that is not smaller rounds
    to at most 1. *)
Lemma SFdiv_at_most_one (ma : positive) (ea : Z) (ms : positive) (es : Z) :
  bounded prec emax ma ea = true -> bounded prec emax ms es = true ->
  ea < es \/ (ea = es /\ Z.pos ma <= Z.pos ms) ->
  at_most (SF64div (S754_finite false ma ea) (S754_finite false ms es))
          4503599627370496 (-52).
Proof.
  intros Ha Hs Hle.
  destruct (value_le ma ea ms es Ha Hs Hle) as [He Hv].
  unfold SF64div, SFdiv. cbn [xorb]. rewrite SFdiv_core_spec.
  set (e' := Z.min (fexp prec emax (Zdigits2 (Z.pos ma) + ea - (Zdigits2 (Z.pos ms) + es)))
                   (ea - es)).
  assert (Hd : Zdigits2 (Z.pos ma) + ea <= Zdigits2 (Z.pos ms) + es).
  { change (Zdigits2 (Z.pos ms)) with (Z.pos (digits2_pos ms)).
    apply (digits_below (Z.pos ma) ea ms es); [lia|exact He|exact Hv]. }
  assert (He' : e' <= -53) by (unfold e'; rewrite fexp_eq; lia).
  assert (Hs' : 0 <= ea - es - e') by (unfold e'; lia).
  set (m' := match ea - es - e' with
             | Z.pos _ => Z.shiftl (Z.pos ma) (ea - es - e')
             | 0 => Z.pos ma
             | Z.neg _ => 0
             end).
  assert (Hm' : m' = Z.pos ma * 2 ^ (ea - es - e')).
  { unfold m'. destruct (ea - es - e') as [|p|p] eqn:S.
    - rewrite Z.pow_0_r. lia.
    - rewrite Z.shiftl_mul_pow2 by lia. reflexivity.
    - lia. }
  assert (Hbound : m' <= Z.pos ms * 2 ^ (- e')).
  { rewrite Hm'.
    replace (- e') with ((es - ea) + (ea - es - e')) by lia.
    rewrite Z.pow_add_r by lia.
    assert (0 < 2 ^ (ea - es - e')) by (apply pow2_pos; lia). nia. }
  assert (P : 0 < 2 ^ (- e')) by (apply pow2_pos; lia).
  apply binary_round_aux_at_most.
  - apply Z.div_pos; [|lia]. rewrite Hm'.
    apply Z.mul_nonneg_nonneg; [lia|]. apply Z.lt_le_incl, pow2_pos. lia.
  - reflexivity.
  - split; [lia|]. rewrite is_exact_new_location.
    replace (-52 - e') with (1 + (- e' - 53)) by lia.
    rewrite Z.pow_add_r by lia.
    change (2 ^ 1) with 2.
    assert (P2 : 4503599627370496 * (2 * 2 ^ (- e' - 53)) = 2 ^ (- e')).
    { change 4503599627370496 with (2 ^ 52).
      rewrite <- (Z.pow_succ_r 2 (- e' - 53)) by lia.
      rewrite <- Z.pow_add_r by lia. f_equal. lia. }
    rewrite P2.
    pose proof (Z.div_mod m' (Z.pos ms) ltac:(lia)) as Hdm.
    pose proof (Z.mod_pos_bound m' (Z.pos ms) ltac:(lia)) as Hmod.
    destruct (m' mod Z.pos ms =? 0) eqn:R.
    + apply Z.div_le_upper_bound; lia.
    + apply Z.eqb_neq in R. apply Z.div_lt_upper_bound; [lia|].
      assert (Hne : m' <> Z.pos ms * 2 ^ (- e')).
      { intros Heq. apply R. rewrite Heq, Z.mul_comm. apply Z.mod_mul. lia. }
      lia.
Qed.

(** A positive number at most 1, multiplied by a positive number [c],
    rounds to at most [c]. *)
Lemma SFmul_at_most (my : positive) (ey : Z) (mc : positive) (ec : Z) :
  bounded prec emax my ey = true -> bounded prec emax mc ec = true ->
  ey < -52 \/ (ey = -52 /\ Z.pos my <= 4503599627370496) ->
  at_most (SF64mul (S754_finite false my ey) (S754_finite false mc ec)) mc ec.
Proof.
  intros Hy Hc Hle. unfold SF64mul, SFmul. cbn [xorb].
  apply binary_round_aux_at_most; [lia|exact Hc|].
  split; [lia|]. cbn [is_exact].
  replace (ec - (ey + ec)) with (- ey) by lia.
  assert (Hm : Z.pos my <= 2 ^ (- ey)).
  { destruct Hle as [H|[-> H]].
    - apply bounded_spec in Hy. destruct Hy as [Hy _].
      pose proof (FormatFacts.digits2_pos_bound my) as U.
      assert (D : Z.pos (digits2_pos my) <= 53) by lia.
      apply Z.lt_le_incl. eapply Z.lt_le_trans; [exact U|].
      apply Z.pow_le_mono_r; lia.
    - exact H. }
  rewrite Pos2Z.inj_mul. nia.
Qed.

End Rounding.

(** * Further properties of [PostureMonitor] *)

(** ** Direction labels *)

Lemma rank_zero_cases (x : float) :
  Number.isNaN x = false -> frank x = (0, 0, 0)%Z ->
  x = 0%float \/ x = (-0)%float.
Proof.
  rewrite isNaN_spec. unfold frank. intros Hn Hr.
  destruct (Prim2SF x) as [s|s| |s m e] eqn:E; try discriminate Hn.
  - destruct s; [right|left]; apply Prim2SF_inj; rewrite E; reflexivity.
  - destruct s; discriminate Hr.
  - destruct s; discriminate Hr.
Qed.

Lemma not_lt_not_gt_zero (x : float) :
  Number.isNaN x = false ->
  Number.gt x 0 = false -> Number.lt x 0 = false ->
  x = 0%float \/ x = (-0)%float.
Proof.
  intros Hn Hg Hl. apply rank_zero_cases; [exact Hn|].
  unfold Number.gt in Hg. change (PrimFloat.ltb 0 x) with (Number.lt 0 x) in Hg.
  apply (lt_false_spec 0 x eq_refl Hn) in Hg.
  apply (lt_false_spec x 0 Hn eq_refl) in Hl.
  change (frank 0) with (0, 0, 0)%Z in *.
  destruct (frank x) as [[a b] c]. simpl in Hg, Hl.
  assert (a = 0 /\ b = 0 /\ c = 0)%Z as [-> [-> ->]] by lia. reflexivity.
Qed.

(** X1.  The direction label of an error is RIGHT (UP for pitch) iff the
    error is above 0, LEFT (DOWN) iff it is below 0, and CENTER iff it is a
    zero or NaN.  A CENTER label of an error that is a number comes with
    the good colour class, while a NaN error shows CENTER with the bad
    colour class. *)
Theorem direction_labels (error : float) :
  (rollDirection error = "RIGHT"%string <-> Number.gt error 0 = true) /\
  (rollDirection error = "LEFT"%string <-> Number.lt error 0 = true) /\
  (rollDirection error = "CENTER"%string <->
     error = 0%float \/ error = (-0)%float \/ Number.isNaN error = true) /\
  (pitchDirection error = "UP"%string <-> rollDirection error = "RIGHT"%string) /\
  (pitchDirection error = "DOWN"%string <-> rollDirection error = "LEFT"%string) /\
  (pitchDirection error = "CENTER"%string <-> rollDirection error = "CENTER"%string) /\
  (rollDirection error = "CENTER"%string ->
     getColorClass error =
       if Number.isNaN error then status_bad else status_good).
Proof.
  unfold rollDirection, pitchDirection.
  destruct (Number.gt error 0) eqn:G.
  { assert (L : Number.lt error 0 = false).
    { unfold Number.gt in G. apply le_lt_false. apply lt_le. exact G. }
    assert (N : Number.isNaN error = false).
    { unfold Number.gt in G. apply (lt_notNaN 0 error). exact G. }
    repeat split; intros; try discriminate; try reflexivity; try congruence.
    match goal with
    | H : _ \/ _ |- _ => destruct H as [->|[->|H]]; [discriminate G|discriminate G|congruence]
    end. }
  destruct (Number.lt error 0) eqn:L.
  { assert (N : Number.isNaN error = false) by (apply (lt_notNaN error 0); exact L).
    repeat split; intros; try discriminate; try reflexivity; try congruence.
    match goal with
    | H : _ \/ _ |- _ => destruct H as [->|[->|H]]; [discriminate L|discriminate L|congruence]
    end. }
  repeat split; intros; try discriminate; try reflexivity; try congruence.
  - destruct (Number.isNaN error) eqn:N; [auto|].
    destruct (not_lt_not_gt_zero error N G L); auto.
  - destruct (Number.isNaN error) eqn:N.
    + apply isNaN_true in N. subst. reflexivity.
    + destruct (not_lt_not_gt_zero error N G L); subst; reflexivity.
Qed.

(** * The bar percentage *)

(** ** [clamp] between 0 and 100 *)

Lemma min_100 (v : float) :
  Number.isNaN v = false ->
  Math.min [100%float; v] = if Number.lt v 100 then v else 100%float.
Proof.
  intros Hn. unfold Math.min. cbn [Math.min_from].
  change (Number.isNaN 100) with false. cbv iota.
  change (Number.same 100 neg_zero) with false. cbn [andb].
  change (Number.lt 100 infinity) with true. cbv iota.
  rewrite Hn.
  change (Number.same 100 PrimFloat.zero) with false.
  rewrite andb_false_r. reflexivity.
Qed.

Lemma max_0 (w : float) :
  Number.isNaN w = false ->
  Math.max [0%float; w] = if Number.gt w 0 then w else 0%float.
Proof.
  intros Hn. unfold Math.max. cbn [Math.max_from].
  change (Number.isNaN 0) with false. cbv iota.
  change (Number.same neg_infinity neg_zero) with false. rewrite andb_false_r.
  change (Number.gt 0 neg_infinity) with true. cbv iota.
  rewrite Hn.
  change (Number.same 0 neg_zero) with false.
  rewrite andb_false_r. reflexivity.
Qed.

Lemma clamp_nan : clamp nan 0 100 = nan.
Proof. reflexivity. Qed.

(** For a value that is not NaN: the smaller of it and 100, or 0 when
    that is not above 0. *)
Lemma clamp_0_100 (v : float) :
  Number.isNaN v = false ->
  clamp v 0 100 =
  let w := if Number.lt v 100 then v else 100%float in
  if Number.gt w 0 then w else 0%float.
Proof.
  intros Hn. unfold clamp. rewrite (min_100 v Hn).
  apply max_0. destruct (Number.lt v 100); [exact Hn|reflexivity].
Qed.

Lemma clamp_range (v : float) :
  Number.isNaN v = false ->
  Number.le 0 (clamp v 0 100) = true /\ Number.le (clamp v 0 100) 100 = true.
Proof.
  intros Hn. rewrite (clamp_0_100 v Hn). cbv zeta.
  destruct (Number.lt v 100) eqn:L.
  - destruct (Number.gt v 0) eqn:G; [|split; reflexivity].
    split; apply lt_le; [exact G|exact L].
  - split; reflexivity.
Qed.

(** ** Values that are not NaN and carry the sign [+] *)

Lemma nonneg_notNaN (v : float) : nonneg_sf (Prim2SF v) -> Number.isNaN v = false.
Proof.
  rewrite isNaN_spec. intros [H|[H|[m [e H]]]]; rewrite H; reflexivity.
Qed.

Lemma nonneg_abs (e : float) :
  Number.isNaN e = false -> nonneg_sf (Prim2SF (Math.abs e)).
Proof.
  rewrite isNaN_spec. unfold Math.abs. rewrite abs_spec. unfold nonneg_sf.
  destruct (Prim2SF e) as [s|s| |s m x]; cbn [SFabs is_nan_sf]; intros H;
    try discriminate H; eauto.
Qed.

Lemma nonneg_div (a s : float) (ms : positive) (es : Z) :
  nonneg_sf (Prim2SF a) -> Prim2SF s = S754_finite false ms es ->
  nonneg_sf (Prim2SF (a / s)).
Proof.
  intros Ha Hs. rewrite div_spec, Hs. apply Rounding.SFdiv_nonneg. exact Ha.
Qed.

Lemma Prim2SF_100 : Prim2SF 100 = S754_finite false 7036874417766400 (-46).
Proof. vm_compute. reflexivity. Qed.

Lemma nonneg_mul_100 (a : float) :
  nonneg_sf (Prim2SF a) -> nonneg_sf (Prim2SF (a * 100)).
Proof.
  intros Ha. rewrite mul_spec, Prim2SF_100. apply Rounding.SFmul_nonneg. exact Ha.
Qed.

Lemma nonneg_not_gt_zero (v : float) :
  nonneg_sf (Prim2SF v) -> Number.gt v 0 = false -> v = 0%float.
Proof.
  intros Hv G. pose proof (nonneg_notNaN v Hv) as Hn.
  unfold Number.gt in G. change (PrimFloat.ltb 0 v) with (Number.lt 0 v) in G.
  apply (lt_false_spec 0 v eq_refl Hn) in G.
  change (frank 0) with (0, 0, 0)%Z in G. unfold frank in G.
  apply Prim2SF_inj.
  destruct Hv as [H|[H|[m [e H]]]]; rewrite H in *; cbn [rank lex_le] in G.
  - reflexivity.
  - lia.
  - lia.
Qed.

(** A finite scale above 0 is a positive binary64 number. *)
Lemma positive_finite (s : float) :
  Number.isFinite s = true -> Number.gt s 0 = true ->
  exists ms es, Prim2SF s = S754_finite false ms es.
Proof.
  intros F G. unfold Number.gt in G.
  change (PrimFloat.ltb 0 s) with (Number.lt 0 s) in G.
  apply lt_spec in G. destruct G as [_ [Hn G]].
  change (frank 0) with (0, 0, 0)%Z in G. unfold frank in G.
  rewrite isNaN_spec in Hn.
  destruct (Prim2SF s) as [b|b| |b m e] eqn:E; try discriminate Hn.
  - cbn [rank lex_lt] in G. lia.
  - exfalso. unfold Number.isFinite, is_finite, is_infinity in F.
    rewrite FloatAxioms.eqb_spec, abs_spec, E in F.
    destruct (is_nan s); [discriminate F|].
    destruct b; discriminate F.
  - destruct b; [cbn [rank lex_lt] in G; lia|]. eauto.
Qed.

(** On a value with the sign [+], the clamp is the minimum with 100. *)
Lemma clamp_nonneg (v : float) :
  nonneg_sf (Prim2SF v) -> clamp v 0 100 = Math.min [100%float; v].
Proof.
  intros Hv. pose proof (nonneg_notNaN v Hv) as Hn.
  rewrite (clamp_0_100 v Hn), (min_100 v Hn). cbv zeta.
  destruct (Number.lt v 100) eqn:L; [|reflexivity].
  destruct (Number.gt v 0) eqn:G; [reflexivity|].
  symmetry. apply nonneg_not_gt_zero; assumption.
Qed.

(** ** C4: the fill percentage *)

(** C4 (as amended).  For every error [e] that is not NaN and every finite
    scale [s > 0], [getBarPercentage e s] is [Math.min(100, |e| / s * 100)]
    and lies in [0, 100], whatever the magnitude of [e].  For arbitrary
    arguments the result lies in [0, 100] unless [|e| / s * 100] is NaN, and
    then it is NaN. *)
Theorem getBarPercentage_range (e s : float) :
  let v := (Math.abs e / s * 100)%float in
  (Number.isNaN e = false -> Number.isFinite s = true -> Number.gt s 0 = true ->
     getBarPercentage e s = Math.min [100%float; v] /\
     Number.le 0 (getBarPercentage e s) = true /\
     Number.le (getBarPercentage e s) 100 = true) /\
  (Number.isNaN v = false ->
     Number.le 0 (getBarPercentage e s) = true /\
     Number.le (getBarPercentage e s) 100 = true) /\
  (Number.isNaN v = true -> getBarPercentage e s = nan).
Proof.
  intros v. unfold getBarPercentage. fold v.
  split; [|split].
  - intros He Fs Gs.
    destruct (positive_finite s Fs Gs) as [ms [es Hs]].
    assert (Hv : nonneg_sf (Prim2SF v)).
    { unfold v. apply nonneg_mul_100. apply (nonneg_div _ _ ms es); [|exact Hs].
      apply nonneg_abs. exact He. }
    split; [apply clamp_nonneg; exact Hv|].
    apply clamp_range. apply nonneg_notNaN. exact Hv.
  - apply clamp_range.
  - intros Hn. rewrite (isNaN_true v Hn). reflexivity.
Qed.

(** C4, the claim as written fails: for the error [Infinity - Infinity]
    (NaN) and the scale 15 the percentage is NaN, which is not in [0, 100];
    so is the percentage of an infinite error on an infinite scale. *)
Lemma getBarPercentage_nan :
  let e := (infinity - infinity)%float in
  Number.gt 15 0 = true /\
  getBarPercentage e 15 = nan /\
  Number.le 0 (getBarPercentage e 15) = false /\
  Number.le (getBarPercentage e 15) 100 = false /\
  Number.gt infinity 0 = true /\
  getBarPercentage infinity infinity = nan.
Proof. repeat split; vm_compute; reflexivity. Qed.

(** ** C9: the adaptive scale keeps the clamp idle *)

Lemma le_at_most (v c : float) (mc : positive) (ec : Z) :
  at_most (Prim2SF v) mc ec ->
  Prim2SF c = S754_finite false mc ec ->
  Number.le v c = true.
Proof.
  intros Hv Hc. apply le_spec. rewrite !isNaN_spec. unfold frank. rewrite Hc.
  destruct Hv as [H|[m [e [H Hle]]]]; rewrite H; cbn [is_nan_sf rank lex_le];
    repeat split; lia.
Qed.

Lemma clamp_id (v : float) :
  nonneg_sf (Prim2SF v) -> Number.le v 100 = true -> clamp v 0 100 = v.
Proof.
  intros Hv Hle. pose proof (nonneg_notNaN v Hv) as Hn.
  rewrite (clamp_nonneg v Hv), (min_100 v Hn).
  destruct (Number.lt v 100) eqn:L; [reflexivity|].
  apply (lt_false_spec v 100 Hn eq_refl) in L.
  apply le_spec in Hle. destruct Hle as [_ [_ Hle]].
  unfold frank in *. rewrite Prim2SF_100 in *. apply Prim2SF_inj.
  rewrite Prim2SF_100.
  destruct Hv as [H|[H|[m [e H]]]]; rewrite H in *; cbn [rank lex_le] in *;
    try lia.
  assert (e = -46 /\ Z.pos m = 7036874417766400)%Z as [-> Hm] by lia.
  injection Hm as ->. reflexivity.
Qed.

Lemma tier_finite (s : float) :
  In s scale_tiers ->
  exists ms es, Prim2SF s = S754_finite false ms es /\ bounded prec emax ms es = true.
Proof.
  unfold scale_tiers. cbn [In].
  intros [<-|[<-|[<-|[<-|[<-|[]]]]]]; eexists; eexists; split;
    vm_compute; reflexivity.
Qed.

Lemma zero_percentage (a s : float) (ms : positive) (es : Z) :
  Prim2SF a = S754_zero false -> Prim2SF s = S754_finite false ms es ->
  (a / s * 100)%float = 0%float.
Proof.
  intros Ha Hs. apply Prim2SF_inj.
  rewrite mul_spec, div_spec, Ha, Hs, Prim2SF_100. reflexivity.
Qed.

Lemma Prim2SF_180 : Prim2SF 180 = S754_finite false 6333186975989760 (-45).
Proof. vm_compute. reflexivity. Qed.

Lemma scale_covers (e : float) :
  Number.le (Math.abs e) 180 = true ->
  Number.le (Math.abs e) (getDynamicScale e) = true.
Proof.
  intros H. unfold getDynamicScale.
  destruct (Number.le (Math.abs e) 15) eqn:E15; [exact E15|].
  destruct (Number.le (Math.abs e) 30) eqn:E30; [exact E30|].
  destruct (Number.le (Math.abs e) 45) eqn:E45; [exact E45|].
  destruct (Number.le (Math.abs e) 90) eqn:E90; [exact E90|exact H].
Qed.

(** The percentage on the selected scale is at most 100 before the clamp. *)
Lemma percentage_at_most_100 (e : float) :
  Number.le (Math.abs e) 180 = true ->
  let v := (Math.abs e / getDynamicScale e * 100)%float in
  nonneg_sf (Prim2SF v) /\ Number.le v 100 = true.
Proof.
  intros H v. pose proof (scale_covers e H) as Hcov.
  destruct (tier_finite _ (getDynamicScale_in_tiers e)) as [ms [es [Hs Bs]]].
  destruct (le_notNaN _ _ H) as [Ha _].
  assert (Hna : nonneg_sf (Prim2SF (Math.abs e))).
  { apply nonneg_abs. rewrite <- isNaN_abs. exact Ha. }
  assert (Hnv : nonneg_sf (Prim2SF v)).
  { unfold v. apply nonneg_mul_100. apply (nonneg_div _ _ ms es); assumption. }
  split; [exact Hnv|].
  destruct Hna as [Hz|[Hi|[ma [ea Hf]]]].
  - unfold v. rewrite (zero_percentage _ _ ms es Hz Hs). reflexivity.
  - exfalso. apply le_spec in H. destruct H as [_ [_ H]].
    unfold frank in H. rewrite Hi, Prim2SF_180 in H. cbn [rank lex_le] in H. lia.
  - pose proof (Prim2SF_valid (Math.abs e)) as Va. rewrite Hf in Va.
    cbn [SpecFloat.valid_binary] in Va.
    assert (Hlex : (ea < es \/ (ea = es /\ Z.pos ma <= Z.pos ms))%Z).
    { apply le_spec in Hcov. destruct Hcov as [_ [_ Hc]].
      unfold frank in Hc. rewrite Hf, Hs in Hc. cbn [rank lex_le] in Hc. lia. }
    pose proof (Rounding.SFdiv_at_most_one ma ea ms es Va Bs Hlex) as Hq.
    fold (SF64div (S754_finite false ma ea) (S754_finite false ms es)) in Hq.
    rewrite <- Hf, <- Hs, <- div_spec in Hq.
    destruct Hq as [Hq|[my [ey [Hq Hle]]]].
    + unfold v. apply (le_at_most _ 100 7036874417766400 (-46)); [|apply Prim2SF_100].
      rewrite mul_spec, Hq, Prim2SF_100. left. reflexivity.
    + pose proof (Prim2SF_valid (Math.abs e / getDynamicScale e)) as Vy.
      rewrite Hq in Vy. cbn [SpecFloat.valid_binary] in Vy.
      unfold v. apply (le_at_most _ 100 7036874417766400 (-46)); [|apply Prim2SF_100].
      rewrite mul_spec, Hq, Prim2SF_100.
      apply Rounding.SFmul_at_most; [exact Vy|reflexivity|exact Hle].
Qed.

(** C9.  For every error [e] with |e| <= 180 the selected scale is at least
    |e|, and the bar percentage on that scale is exactly
    [|e| / scale * 100] (the value the code computes before the clamp),
    which lies between 0 and 100: the clamp does not engage.  The clamp can
    change the value only when |e| > 180. *)
Theorem adaptive_scale_never_clamps (e : float) :
  let s := getDynamicScale e in
  let v := (Math.abs e / s * 100)%float in
  (Number.le (Math.abs e) 180 = true ->
     Number.ge s (Math.abs e) = true /\
     getBarPercentage e s = v /\
     Number.le 0 v = true /\ Number.le v 100 = true) /\
  (getBarPercentage e s <> v -> Number.gt (Math.abs e) 180 = true).
Proof.
  intros s v.
  assert (Main : Number.le (Math.abs e) 180 = true ->
                 Number.ge s (Math.abs e) = true /\
                 getBarPercentage e s = v /\
                 Number.le 0 v = true /\ Number.le v 100 = true).
  { intros H. destruct (percentage_at_most_100 e H) as [Hn Hle].
    fold s in Hn, Hle. fold v in Hn, Hle.
    split; [exact (scale_covers e H)|].
    assert (Hid : getBarPercentage e s = v).
    { unfold getBarPercentage. fold v. apply clamp_id; assumption. }
    split; [exact Hid|]. split; [|exact Hle].
    rewrite <- Hid. unfold getBarPercentage. fold v.
    apply clamp_range. apply nonneg_notNaN. exact Hn. }
  split; [exact Main|].
  intros Hneq. destruct (Number.le (Math.abs e) 180) eqn:L.
  - exfalso. apply Hneq. apply Main. reflexivity.
  - destruct (Number.isNaN e) eqn:N.
    + exfalso. apply Hneq. apply isNaN_true in N. unfold v, s. subst e.
      reflexivity.
    + unfold Number.gt. apply nle_lt; [|reflexivity|exact L].
      rewrite isNaN_abs. exact N.
Qed.

(** * Sessions *)

Section SessionExtras.

Variable JSON_parse : string -> option Frame.t.

Lemma onmessage_state_total (ev_data : string) (s : State) :
  state_of (onmessage JSON_parse ev_data s) =
  match JSON_parse ev_data with
  | Some data =>
    {| pitch := match Frame.imu data with Some i => Imu.pitch i | None => pitch s end;
       roll := match Frame.imu data with Some i => Imu.roll i | None => roll s end;
       yaw := match Frame.imu data with Some i => Imu.yaw i | None => yaw s end;
       heading := match Frame.imu data with Some i => Imu.heading i | None => heading s end;
       gnss := match Frame.gnss data with Some g => g | None => gnss s end;
       connected := connected s;
       target := match Frame.target data with Some t => t | None => target s end;
       corrections :=
         match Frame.corrections data with Some c => c | None => corrections s end;
       ws := ws s;
       isAtTarget := isAtTarget s |}
  | None => s
  end.
Proof.
  destruct (JSON_parse ev_data) as [data|] eqn:E.
  - apply onmessage_decoded. exact E.
  - rewrite (onmessage_malformed _ _ _ E). reflexivity.
Qed.

Lemma onmessage_idempotent (ev_data : string) (s : State) :
  state_of (onmessage JSON_parse ev_data (state_of (onmessage JSON_parse ev_data s))) =
  state_of (onmessage JSON_parse ev_data s).
Proof.
  rewrite !onmessage_state_total.
  destruct (JSON_parse ev_data) as [data|]; [|reflexivity].
  destruct data as [[i|] [g|] [c|] [t|]]; reflexivity.
Qed.

Lemma step_message_idempotent (ev_data : string) (s : State) :
  state_of (step JSON_parse (SocketMessage ev_data)
              (state_of (step JSON_parse (SocketMessage ev_data) s))) =
  state_of (step JSON_parse (SocketMessage ev_data) s).
Proof.
  unfold step. apply dispatch_unchanged. rewrite dispatch_state.
  destruct (deps_unchanged s _); [apply onmessage_idempotent|].
  rewrite !onmessage_state_total.
  destruct (JSON_parse ev_data) as [data|]; [|reflexivity].
  destruct data as [[i|] [g|] [c|] [t|]]; reflexivity.
Qed.

Lemma step_effects (ev : Event) (s : State) :
  effects_of (step JSON_parse ev s) =
  match ev with
  | PressSet clock => if connected s then effects_of (handleSet clock s) else []
  | SocketMessage ev_data =>
      match JSON_parse ev_data with Some _ => [] | None => [ConsoleError] end
  | _ => []
  end.
Proof.
  destruct ev; try apply press_effects; unfold step; rewrite dispatch_effects.
  - destruct s as [? ? ? ? ? ? ? ? [w|] ?]; reflexivity.
  - destruct s as [? ? ? ? ? ? ? ? [w|] ?]; reflexivity.
  - destruct s as [? ? ? ? ? ? ? ? [w|] ?]; reflexivity.
  - destruct s as [? ? ? ? ? ? ? ? [w|] ?]; reflexivity.
  - destruct (JSON_parse ev_data) as [data|] eqn:E.
    + unfold onmessage. rewrite E.
      destruct data as [[i|] [g|] [c|] [t|]]; reflexivity.
    + rewrite (onmessage_malformed _ _ _ E). reflexivity.
Qed.

(** X2.  Frames are applied without memory: delivering the same frame
    twice in a row leaves the session where one delivery leaves it, and a
    frame that carries all four payloads erases the trace of the frame
    before it. *)
Theorem frames_without_memory (ev_data : string) (s : State) :
  (forall evs,
     run JSON_parse (SocketMessage ev_data :: SocketMessage ev_data :: evs) s =
     run JSON_parse (SocketMessage ev_data :: evs) s) /\
  (forall i g c t earlier,
     JSON_parse ev_data = Some (Frame.mk (Some i) (Some g) (Some c) (Some t)) ->
     state_of (onmessage JSON_parse ev_data
                 (state_of (onmessage JSON_parse earlier s))) =
     state_of (onmessage JSON_parse ev_data s)).
Proof.
  split.
  - intros evs. cbn [run]. rewrite step_message_idempotent. reflexivity.
  - intros i g c t earlier H. rewrite !(onmessage_state_total ev_data), H.
    rewrite onmessage_state_total.
    destruct (JSON_parse earlier) as [[[i'|] [g'|] [c'|] [t'|]]|]; reflexivity.
Qed.

Lemma sent_app (a b : list Effect) : sent (a ++ b) = sent a ++ sent b.
Proof. apply flat_map_app. Qed.

Lemma records_app (a b : list Effect) : records (a ++ b) = records a ++ records b.
Proof. apply flat_map_app. Qed.

Lemma alerts_app (a b : list Effect) : alerts (a ++ b) = alerts a ++ alerts b.
Proof. apply flat_map_app. Qed.

(** What one step sends, records and alerts. *)
Lemma step_counts (ev : Event) (s : State) :
  let out := effects_of (step JSON_parse ev s) in
  let p := presses [ev] in
  Forall (fun m => m = SET_command) (sent out) /\
  List.length (records out) = List.length (sent out) /\
  (List.length (sent out) <= List.length (alerts out))%nat /\
  (List.length (alerts out) <= p)%nat.
Proof.
  cbv zeta. rewrite step_effects.
  destruct ev as [| | | |d|clock]; cbn [presses filter List.length];
    try (repeat split; cbn; first [lia | solve [repeat constructor]]).
  - destruct (JSON_parse d); repeat split; cbn; first [lia | solve [repeat constructor]].
  - destruct (connected s);
      [|repeat split; cbn; first [lia | solve [repeat constructor]]].
    rewrite handleSet_effects.
    destruct (socket_is_open s).
    + destruct (saveToFile_effects clock s) as [txt ->].
      repeat split; cbn; first [lia | solve [repeat constructor]].
    + repeat split; cbn; first [lia | solve [repeat constructor]].
Qed.

Lemma presses_cons (ev : Event) (evs : list Event) :
  presses (ev :: evs) = (presses [ev] + presses evs)%nat.
Proof. unfold presses. cbn [filter]. destruct ev; reflexivity. Qed.

(** X3.  Over a whole session, every message put on the socket is the text
    of [{command: "SET"}]; each of them comes with exactly one record and
    one alert; and no more alerts are raised than the SET button was
    pressed. Frames, whether they decode or not, send nothing. *)
Theorem session_sends_only_SET (evs : list Event) (s : State) :
  let out := trace JSON_parse evs s in
  Forall (fun m => m = SET_command) (sent out) /\
  List.length (records out) = List.length (sent out) /\
  (List.length (sent out) <= List.length (alerts out))%nat /\
  (List.length (alerts out) <= presses evs)%nat.
Proof.
  cbv zeta. revert s. induction evs as [|ev evs IH]; intros s.
  - repeat split; cbn; first [lia | solve [repeat constructor]].
  - cbn [trace]. rewrite sent_app, records_app, alerts_app, presses_cons.
    rewrite !List.length_app.
    destruct (step_counts ev s) as [A1 [A2 [A3 A4]]].
    destruct (IH (state_of (step JSON_parse ev s))) as [B1 [B2 [B3 B4]]].
    repeat split; try lia. apply Forall_app. split; assumption.
Qed.

End SessionExtras.

(** ** Orientation equal to the target *)




(** ** Scale markers *)

Lemma binary_round_aux_opp (sx : bool) (m e : Z) (l : location) :
  binary_round_aux prec emax (negb sx) m e l =
  SFopp (binary_round_aux prec emax sx m e l).
Proof.
  unfold binary_round_aux.
  destruct (shr_fexp prec emax m e l) as [mrs' e'].
  destruct (shr_fexp prec emax _ e' loc_Exact) as [mrs'' e''].
  destruct (shr_m mrs''); try reflexivity.
  destruct (e'' <=? emax - prec)%Z; reflexivity.
Qed.

Lemma mul_opp_l (a b : float) : ((- a) * b)%float = (- (a * b))%float.
Proof.
  apply Prim2SF_inj. rewrite mul_spec, !opp_spec, mul_spec.
  unfold SF64mul, SFmul.
  destruct (Prim2SF a) as [sa|sa| |sa ma ea], (Prim2SF b) as [sb|sb| |sb mb eb];
    cbn [SFopp]; rewrite <- ?negb_xorb_l; try reflexivity.
  apply binary_round_aux_opp.
Qed.

Lemma div_opp_l (a b : float) : ((- a) / b)%float = (- (a / b))%float.
Proof.
  apply Prim2SF_inj. rewrite div_spec, !opp_spec, div_spec.
  unfold SF64div, SFdiv.
  destruct (Prim2SF a) as [sa|sa| |sa ma ea], (Prim2SF b) as [sb|sb| |sb mb eb];
    cbn [SFopp]; rewrite <- ?negb_xorb_l; try reflexivity.
  destruct (SFdiv_core_binary prec emax (Z.pos ma) ea (Z.pos mb) eb) as [[mz ez] lz].
  apply binary_round_aux_opp.
Qed.

(** X5.  For every scale the seven markers are symmetric about 0: the
    three below 0 are the negations of the three above.  On each range the
    gauge can select they are strictly increasing from [-scale] to [scale]
    in equal steps of a third of the scale, and the positions at which they
    are drawn do not depend on the range: on the pitch gauge they go from 0
    percent (for [-scale]) through 50 (for 0) up to 100 (for [scale]),
    strictly increasing, and on the roll gauge the same positions run the
    other way, from 100 percent for [-scale] down to 0 for [scale]. *)
Theorem scale_markers_layout (scale e : float) :
  getScaleMarkers scale =
    [ - scale; - (scale * 2 / 3); - (scale / 3); 0;
      scale / 3; scale * 2 / 3; scale ]%float /\
  (let s := getDynamicScale e in
   let third := (s / 3)%float in
   let tops := map (fun deg => pitchMarkerTop deg s) (getScaleMarkers s) in
   let lefts := map (fun deg => rollMarkerLeft deg s) (getScaleMarkers s) in
   getScaleMarkers s =
     [ - s; - (third + third); - third; 0; third; third + third; s ]%float /\
   (third + third + third)%float = s /\
   increasing (getScaleMarkers s) = true /\
   tops = map (fun deg => pitchMarkerTop deg 15) (getScaleMarkers 15) /\
   increasing tops = true /\
   nth 0 tops nan = 0%float /\ nth 3 tops nan = 50%float /\
   nth 6 tops nan = 100%float /\
   lefts = rev tops).
Proof.
  split.
  - unfold getScaleMarkers. rewrite mul_opp_l, !div_opp_l. reflexivity.
  - cbv zeta. pose proof (getDynamicScale_in_tiers e) as H.
    revert H. generalize (getDynamicScale e). intros s H.
    unfold scale_tiers in H. cbn [In] in H.
    destruct H as [<-|[<-|[<-|[<-|[<-|[]]]]]]; repeat split; vm_compute; reflexivity.
Qed.

(** * The Present Position screen *)

Module PresentPositionFacts.

Import PresentPosition.

Lemma zero_not_neg_zero : 0%float <> (-0)%float.
Proof. intros H. apply (f_equal Prim2SF) in H. discriminate H. Qed.

Lemma clean_or_zero (field : option float) : clean (or_zero field).
Proof.
  unfold or_zero, clean. destruct field as [x|]; [|split; [reflexivity|apply zero_not_neg_zero]].
  destruct (truthy x) eqn:T; [|split; [reflexivity|apply zero_not_neg_zero]].
  unfold truthy in T. apply negb_true_iff, orb_false_iff in T. destruct T as [Tn Tz].
  split; [exact Tn|]. intros ->. discriminate Tz.
Qed.

Lemma eqb_zero_cases (x : float) :
  PrimFloat.eqb x 0 = true -> x = 0%float \/ x = (-0)%float.
Proof.
  rewrite FloatAxioms.eqb_spec. change (Prim2SF 0) with (S754_zero false).
  destruct (Prim2SF x) as [b|b| |b m e] eqn:E; unfold SFeqb; cbn [SFcompare];
    try (destruct b; discriminate); try discriminate.
  intros _. destruct b; [right|left]; apply Prim2SF_inj; rewrite E; reflexivity.
Qed.

Section Facts.

Variable JSON_parse : string -> option Frame.
Variable Math_cos : float -> float.
Variable Math_round : float -> float.

Lemma step_clean (ev : Event) (s : State) :
  clean_imu (imuData s) -> clean_imu (imuData (fst (step JSON_parse Math_cos Math_round ev s))).
Proof.
  intros H. destruct ev as [| |d t]; try exact H.
  cbn [PresentPosition.step]. unfold onmessage.
  destruct (JSON_parse d) as [[[i|] [g|]]|]; cbn; try exact H;
    repeat split; apply clean_or_zero.
Qed.

Lemma run_clean (evs : list Event) (s : State) :
  clean_imu (imuData s) -> clean_imu (imuData (run JSON_parse Math_cos Math_round evs s)).
Proof.
  revert s. induction evs as [|ev evs IH]; intros s H; [exact H|].
  cbn [PresentPosition.run]. apply IH. apply step_clean. exact H.
Qed.

Lemma step_fix (ev : Event) (s : State) :
  fix_invariant s ->
  fix_invariant (fst (step JSON_parse Math_cos Math_round ev s)) /\
  gpsOk (position (fst (step JSON_parse Math_cos Math_round ev s))) =
    gpsOk (position s) || carries_gnss JSON_parse ev.
Proof.
  intros H. destruct ev as [| |d t]; cbn [PresentPosition.step carries_gnss];
    try (split; [exact H|symmetry; apply orb_false_r]).
  unfold onmessage.
  destruct (JSON_parse d) as [[[i|] [g|]]|]; cbn;
    try (split; [exact H|symmetry; apply orb_false_r]);
    (split; [left; repeat split|symmetry; apply orb_true_r]).
Qed.

Lemma run_fix (evs : list Event) (s : State) :
  fix_invariant s ->
  fix_invariant (run JSON_parse Math_cos Math_round evs s) /\
  gpsOk (position (run JSON_parse Math_cos Math_round evs s)) =
    gpsOk (position s) || existsb (carries_gnss JSON_parse) evs.
Proof.
  revert s. induction evs as [|ev evs IH]; intros s H.
  - split; [exact H|symmetry; apply orb_false_r].
  - cbn [PresentPosition.run existsb].
    destruct (step_fix ev s H) as [H1 E1].
    destruct (IH _ H1) as [H2 E2].
    split; [exact H2|]. rewrite E2, E1. symmetry. apply orb_assoc.
Qed.

End Facts.

(** X6.  The Present Position screen never stores an orientation value
    that is NaN or [-0]: a field that is missing, NaN or a zero is stored as
    [+0], any other number as it is; and this holds of the four stored
    values after every sequence of socket events. *)
Theorem stored_orientation_is_clean
  (JSON_parse : string -> option Frame) (Math_cos Math_round : float -> float)
  (evs : list Event) (field : option float) :
  clean_imu (imuData (run JSON_parse Math_cos Math_round evs initialState)) /\
  clean (or_zero field) /\
  (forall x, field = Some x -> truthy x = true -> or_zero field = x) /\
  (forall x, field = Some x -> truthy x = false -> or_zero field = 0%float) /\
  (field = None -> or_zero field = 0%float) /\
  (forall x, truthy x = false <->
             x = 0%float \/ x = (-0)%float \/ Number.isNaN x = true).
Proof.
  split; [|split; [apply clean_or_zero|]].
  - apply run_clean. repeat split; try reflexivity; apply zero_not_neg_zero.
  - split; [intros x -> T; unfold or_zero; rewrite T; reflexivity|].
    split; [intros x -> T; unfold or_zero; rewrite T; reflexivity|].
    split; [intros ->; reflexivity|].
    intros x. unfold truthy. rewrite negb_false_iff, orb_true_iff. split.
    + intros [N|Z]; [auto|]. apply eqb_zero_cases in Z. tauto.
    + intros [->|[->|N]]; [right; reflexivity|right; reflexivity|left; exact N].
Qed.

(** X7.  After any sequence of socket events the screen reports a GPS fix
    exactly when some frame that decoded and carried a position has been
    handled; the report never reverts, not even after the socket closes.
    With a fix the type is [INS+GPS] and the quality [good], shown in
    green; without one the position, its status and the update time are
    still the initial ones and the quality is shown in red.  The zone is
    always 30 and the warning colour is never shown. *)
Theorem fix_status
  (JSON_parse : string -> option Frame) (Math_cos Math_round : float -> float)
  (evs : list Event) :
  let s := run JSON_parse Math_cos Math_round evs initialState in
  gpsOk (position s) = existsb (carries_gnss JSON_parse) evs /\
  (gpsOk (position s) = true ->
     fixType (position s) = "INS+GPS"%string /\
     quality (position s) = "good"%string /\
     getColor (quality (position s)) = "text-green"%string) /\
  (gpsOk (position s) = false ->
     position s = position initialState /\
     lastUpdate s = "--:--:--"%string /\
     getColor (quality (position s)) = "text-red"%string) /\
  zone (position s) = 30%float /\
  getColor (quality (position s)) <> "text-yellow"%string /\
  (forall more,
     gpsOk (position s) = true ->
     gpsOk (position (run JSON_parse Math_cos Math_round more s)) = true).
Proof.
  intros s.
  assert (H0 : fix_invariant initialState) by (right; split; reflexivity).
  destruct (run_fix JSON_parse Math_cos Math_round evs initialState H0) as [Inv E].
  fold s in Inv, E. cbn [gpsOk position initialState orb] in E.
  split; [exact E|].
  destruct Inv as [[G [F [Q Z]]]|[P L]].
  - rewrite G, F, Q, Z. repeat split; try discriminate.
    intros more _.
    destruct (run_fix JSON_parse Math_cos Math_round more s) as [_ E'];
      [left; auto|].
    rewrite E', G. reflexivity.
  - rewrite P, L. cbn [gpsOk position initialState quality zone fixType].
    repeat split; try discriminate.
Qed.

End PresentPositionFacts.
